(** * patch_toml: a format-preserving TOML patcher

    A shallow embedding of [patch_toml.py] and the properties of its
    location-and-patch engine.

    Conventions of the embedding.
    - A Python [str] is a [string]; a character is an [ascii], read as the
      code point of the same number, so the development covers text whose
      code points are below 256 (Latin-1).  Every character class below
      (white space, line boundaries, digits) is the restriction of Python's
      class to that range; no proof below depends on which characters a
      class holds, except that an opening bracket is not white space.
    - Python [int]s that may be negative ([start_line] of the root header,
      [end_line], the result of the value scanner) are [Z]; indices the code
      only ever uses as non-negative positions are [nat].
    - Exceptions are explicit: a function that raises returns a [result].
    - The TOML object parser ([tomllib]) is not part of the program; where
      the driver calls it, it is a parameter of a Section. *)

From Stdlib Require Import ZArith Ascii String DecimalString.
From stdpp Require Import gmap strings list.

Set Warnings "-register-all".
Set Default Proof Using "Type".

(* String literals are read in [string_scope]; [++] is list append, [+:+]
   string append; numerals are in [Z] unless marked. *)
Open Scope string_scope.
Open Scope list_scope.
Open Scope Z_scope.

(** ** Python string primitives *)

Module Py.

Definition chr (n : nat) : ascii := ascii_of_nat n.
Definition ord (c : ascii) : nat := nat_of_ascii c.

Definition TAB : ascii := chr 9.
Definition LF : ascii := chr 10.
Definition CR : ascii := chr 13.
Definition BS : ascii := chr 8.
Definition FF : ascii := chr 12.
Definition DQ : ascii := chr 34.
Definition SQ : ascii := chr 39.
Definition BSL : ascii := chr 92.

(** [str.isspace] on one character: U+0009..U+000D, U+001C..U+001F,
    U+0020, U+0085, U+00A0. *)
Definition isspace (c : ascii) : bool :=
  let n := ord c in
  ((9 <=? n) && (n <=? 13) || (28 <=? n) && (n <=? 32)
   || (n =? 133) || (n =? 160))%nat.

(** The line boundaries of [str.splitlines]: LF, CR, VT, FF, FS, GS, RS,
    NEL (CR LF counts as one boundary, see [splitlines]). *)
Definition islinebreak (c : ascii) : bool :=
  let n := ord c in
  ((10 <=? n) && (n <=? 13) || (28 <=? n) && (n <=? 30) || (n =? 133))%nat.

Fixpoint lstrip (s : string) : string :=
  match s with
  | String c r => if isspace c then lstrip r else s
  | EmptyString => EmptyString
  end.

Fixpoint rstrip (s : string) : string :=
  match s with
  | String c r =>
      match rstrip r with
      | EmptyString => if isspace c then EmptyString else String c EmptyString
      | r' => String c r'
      end
  | EmptyString => EmptyString
  end.

Definition strip (s : string) : string := rstrip (lstrip s).

Definition startswith (s p : string) : bool := String.prefix p s.

Fixpoint last_char (s : string) : option ascii :=
  match s with
  | EmptyString => None
  | String c EmptyString => Some c
  | String _ r => last_char r
  end.

(** [s.endswith(c)] for a one-character [c]. *)
Definition endswith_char (s : string) (c : ascii) : bool :=
  match last_char s with
  | Some d => Ascii.eqb d c
  | None => false
  end.

Fixpoint removelast (s : string) : string :=
  match s with
  | EmptyString => EmptyString
  | String _ EmptyString => EmptyString
  | String c r => String c (removelast r)
  end.

(** [s[1:-1]] *)
Definition slice_1_m1 (s : string) : string :=
  match s with
  | EmptyString => EmptyString
  | String _ r => removelast r
  end.

(** [s[:n]] and [s[n:]] for [n >= 0]. *)
Fixpoint take (n : nat) (s : string) : string :=
  match n, s with
  | S n', String c r => String c (take n' r)
  | _, _ => EmptyString
  end.

Fixpoint drop (n : nat) (s : string) : string :=
  match n, s with
  | S n', String _ r => drop n' r
  | _, _ => s
  end.

Definition char (c : ascii) : string := String c EmptyString.

(** ["".join(l)] *)
Definition join0 (l : list string) : string := String.concat "" l.

(** [sep.join(l)] *)
Definition join (sep : string) (l : list string) : string :=
  String.concat sep l.

(** [str.splitlines]: [cur] is the line being accumulated.  A boundary
    closes the current line; CR immediately followed by LF is a single
    boundary; text after the last boundary is a line only if not empty. *)
Fixpoint splitlines_from (keepends : bool) (cur s : string) : list string :=
  match s with
  | EmptyString =>
      match cur with EmptyString => [] | _ => [cur] end
  | String c r =>
      if Ascii.eqb c CR then
        match r with
        | String d r' =>
            if Ascii.eqb d LF then
              (if keepends then cur +:+ String c (char d) else cur)
                :: splitlines_from keepends "" r'
            else
              (if keepends then cur +:+ char c else cur)
                :: splitlines_from keepends "" r
        | EmptyString =>
            (if keepends then cur +:+ char c else cur)
              :: splitlines_from keepends "" r
        end
      else if islinebreak c then
        (if keepends then cur +:+ char c else cur)
          :: splitlines_from keepends "" r
      else splitlines_from keepends (cur +:+ char c) r
  end.

Definition splitlines (keepends : bool) (s : string) : list string :=
  splitlines_from keepends "" s.

(** [str(n)] for an [int]. *)
Definition str_of_int (z : Z) : string :=
  NilZero.string_of_int (Z.to_int z).

(** Python slicing of a list with a non-negative bound or a possibly
    negative one: [l[:k]] and [l[k:]]. *)
Definition slice_to {A} (l : list A) (k : Z) : list A :=
  if k <? 0 then firstn (Z.to_nat (Z.of_nat (length l) + k)) l
  else firstn (Z.to_nat k) l.

Definition slice_from {A} (l : list A) (k : Z) : list A :=
  if k <? 0 then skipn (Z.to_nat (Z.of_nat (length l) + k)) l
  else skipn (Z.to_nat k) l.

End Py.

(** ** Canonical TOML emission for single values *)

(** The observations [format_toml_value] makes of a Python [float]:
    [math.isnan], [math.isinf], [obj > 0], [repr(obj)] and [str(obj)]. *)
Record PyFloat := {
  isnan : bool;
  isinf : bool;
  positive : bool;
  repr : string;
  str : string
}.

(** A structural value as [tomllib] builds it.  A [datetime], [date] or
    [time] is represented by the text its [isoformat()] returns; a [dict]
    by its items in insertion order. *)
Inductive value : Type :=
| VBool (b : bool)
| VInt (z : Z)
| VFloat (f : PyFloat)
| VStr (s : string)
| VDateTime (iso : string)
| VDate (iso : string)
| VTime (iso : string)
| VDict (items : list (string * value))
| VList (items : list value).

Definition escape_char (ch : ascii) : string :=
  if Ascii.eqb ch Py.BSL then String Py.BSL (Py.char Py.BSL)
  else if Ascii.eqb ch Py.DQ then String Py.BSL (Py.char Py.DQ)
  else if Ascii.eqb ch Py.BS then String Py.BSL "b"
  else if Ascii.eqb ch Py.TAB then String Py.BSL "t"
  else if Ascii.eqb ch Py.LF then String Py.BSL "n"
  else if Ascii.eqb ch Py.CR then String Py.BSL "r"
  else Py.char ch.

Fixpoint escape_body (s : string) : string :=
  match s with
  | EmptyString => EmptyString
  | String ch r => escape_char ch +:+ escape_body r
  end.

Definition _escape_string (s : string) : string :=
  String Py.DQ (escape_body s +:+ Py.char Py.DQ).

(** [[A-Za-z0-9_-]] *)
Definition is_bare_char (c : ascii) : bool :=
  let n := Py.ord c in
  ((65 <=? n) && (n <=? 90) || (97 <=? n) && (n <=? 122)
   || (48 <=? n) && (n <=? 57) || (n =? 95) || (n =? 45))%nat.

(** The rest of a match of [^[A-Za-z0-9_-]+$] after its first character:
    more characters of the class, then the end of the text or one final
    newline (which [$] skips). *)
Fixpoint bare_tail (s : string) : bool :=
  match s with
  | EmptyString => true
  | String c r =>
      if is_bare_char c then bare_tail r
      else Ascii.eqb c Py.LF && match r with EmptyString => true | _ => false end
  end.

Definition _BARE_KEY_RE_match (s : string) : bool :=
  match s with
  | EmptyString => false
  | String c r => is_bare_char c && bare_tail r
  end.

Definition _format_key_segment (seg : string) : string :=
  if _BARE_KEY_RE_match seg then seg else _escape_string seg.

(** [c in s] *)
Fixpoint contains_char (c : ascii) (s : string) : bool :=
  match s with
  | EmptyString => false
  | String d r => Ascii.eqb d c || contains_char c r
  end.

(** [repr(obj).lower()] contains ["e"] iff [repr(obj)] contains [e] or [E]. *)
Definition has_exponent (s : string) : bool :=
  contains_char "e" s || contains_char "E" s.

Definition format_float (f : PyFloat) : string :=
  if isnan f then "nan"
  else if isinf f then (if positive f then "inf" else "-inf")
  else if has_exponent (repr f) then repr f else str f.

(** The cases follow the order of the [isinstance] tests; the last line of
    the source, for an object of no listed type, has no counterpart in
    [value]. *)
Fixpoint format_toml_value (obj : value) : string :=
  match obj with
  | VBool b => if b then "true" else "false"
  | VInt z => Py.str_of_int z
  | VFloat f => format_float f
  | VStr s => _escape_string s
  | VDateTime iso => iso
  | VDate iso => iso
  | VTime iso => iso
  | VDict items =>
      "{ " +:+ Py.join ", "
                (map (fun kv => _format_key_segment (fst kv) +:+ " = "
                                +:+ format_toml_value (snd kv)) items)
           +:+ " }"
  | VList items =>
      "[" +:+ Py.join ", " (map format_toml_value items) +:+ "]"
  end.

(** ** Paths and the quote-aware scanner *)

Record PathSegment := {
  name : string;
  index : option nat  (* for arrays-of-tables, applies to that table segment *)
}.

Definition seg (n : string) : PathSegment := {| name := n; index := None |}.

(** The loop of [_split_path_tokens]; [buf] is the token being written and
    the argument the text from position [i] on.  A backslash inside double
    quotes writes itself and the character after it, if there is one. *)
Fixpoint split_path_loop (in_dq in_sq : bool) (buf s : string) : list string :=
  match s with
  | EmptyString =>
      match Py.strip buf with
      | EmptyString => []
      | final => [final]
      end
  | String ch r =>
      if in_dq then
        if Ascii.eqb ch Py.BSL then
          match r with
          | String d r' =>
              split_path_loop in_dq in_sq (buf +:+ String ch (Py.char d)) r'
          | EmptyString => split_path_loop in_dq in_sq (buf +:+ Py.char ch) r
          end
        else if Ascii.eqb ch Py.DQ then
          split_path_loop false in_sq (buf +:+ Py.char ch) r
        else split_path_loop in_dq in_sq (buf +:+ Py.char ch) r
      else if in_sq then
        if Ascii.eqb ch Py.SQ then
          split_path_loop in_dq false (buf +:+ Py.char ch) r
        else split_path_loop in_dq in_sq (buf +:+ Py.char ch) r
      else if Ascii.eqb ch Py.DQ then
        split_path_loop true in_sq (buf +:+ Py.char ch) r
      else if Ascii.eqb ch Py.SQ then
        split_path_loop in_dq true (buf +:+ Py.char ch) r
      else if Ascii.eqb ch "." then
        Py.strip buf :: split_path_loop in_dq in_sq "" r
      else split_path_loop in_dq in_sq (buf +:+ Py.char ch) r
  end.

Definition _split_path_tokens (raw : string) : list string :=
  split_path_loop false false "" (Py.strip raw).

(** [mapping.get(esc, esc)] *)
Definition unescape_char (esc : ascii) : ascii :=
  if Ascii.eqb esc "b" then Py.BS
  else if Ascii.eqb esc "t" then Py.TAB
  else if Ascii.eqb esc "n" then Py.LF
  else if Ascii.eqb esc "r" then Py.CR
  else esc.

Fixpoint unescape_body (body : string) : string :=
  match body with
  | EmptyString => EmptyString
  | String ch r =>
      if Ascii.eqb ch Py.BSL then
        match r with
        | String esc r' => String (unescape_char esc) (unescape_body r')
        | EmptyString => EmptyString
        end
      else String ch (unescape_body r)
  end.

Definition _unquote_key (tok : string) : string :=
  let tok := Py.strip tok in
  if Py.startswith tok (Py.char Py.DQ) && Py.endswith_char tok Py.DQ then
    unescape_body (Py.slice_1_m1 tok)
  else if Py.startswith tok (Py.char Py.SQ) && Py.endswith_char tok Py.SQ then
    Py.slice_1_m1 tok
  else tok.

Definition is_digit (c : ascii) : bool :=
  let n := Py.ord c in ((48 <=? n) && (n <=? 57))%nat.

(** [int(idx)] for a run of decimal digits, most significant first. *)
Definition int_of_digits (ds : list ascii) : nat :=
  fold_left (fun acc d => (10 * acc + (Py.ord d - 48))%nat) ds 0%nat.

(** The longest prefix of decimal digits and what follows it. *)
Fixpoint span_digits (l : list ascii) : list ascii * list ascii :=
  match l with
  | d :: r =>
      if is_digit d then let '(ds, rest) := span_digits r in (d :: ds, rest)
      else ([], l)
  | [] => ([], [])
  end.

(** [_INDEX_RE = ^(?P<name>.+?)\[(?P<idx>\d+)\]$].  Read from the end of
    the text: an optional final newline (skipped by [$]), a closing bracket,
    the digits of [idx], the opening bracket, and a non-empty [name] without
    a newline.  The digits hold no bracket, so there is one way to match. *)
Definition _INDEX_RE_match (t : string) : option (string * nat) :=
  let r := rev (list_ascii_of_string t) in
  let r := match r with
           | c :: r' => if Ascii.eqb c Py.LF then r' else r
           | [] => r
           end in
  match r with
  | c :: r1 =>
      if Ascii.eqb c "]" then
        match span_digits r1 with
        | ((_ :: _) as ds, o :: ((_ :: _) as nm)) =>
            if Ascii.eqb o "[" && forallb (fun x => negb (Ascii.eqb x Py.LF)) nm
            then Some (string_of_list_ascii (rev nm), int_of_digits (rev ds))
            else None
        | _ => None
        end
      else None
  | [] => None
  end.

(** Parse a dotted path into segments, reading [name[idx]] tokens.
    [int(idx)] is taken as total: it holds for digit strings within the
    interpreter's limit on the length of integer literals (4300 digits by
    default); beyond it the source raises [ValueError], which the driver
    reports with exit code 4. *)
Definition parse_path_with_indices (path : string) : list PathSegment :=
  map (fun t =>
         let t := Py.strip t in
         match _INDEX_RE_match t with
         | Some (nm, idx) =>
             {| name := _unquote_key (Py.strip nm); index := Some idx |}
         | None => {| name := _unquote_key t; index := None |}
         end)
      (_split_path_tokens path).

(** The two loops of [split_set_expression]: the position of the first
    [target] outside quotes, counted from [i]; a quote toggles its state
    unless the other quote is open. *)
Fixpoint find_outside_quotes (target : ascii) (in_dq in_sq : bool)
    (s : string) (i : nat) : option nat :=
  match s with
  | EmptyString => None
  | String ch r =>
      if Ascii.eqb ch Py.DQ && negb in_sq then
        find_outside_quotes target (negb in_dq) in_sq r (S i)
      else if Ascii.eqb ch Py.SQ && negb in_dq then
        find_outside_quotes target in_dq (negb in_sq) r (S i)
      else if Ascii.eqb ch target && negb in_dq && negb in_sq then Some i
      else find_outside_quotes target in_dq in_sq r (S i)
  end.

(** [split_set_expression]: [None] is the [ValueError]. *)
Definition split_set_expression (s : string)
  : option (string * string * option string) :=
  match find_outside_quotes "=" false false s 0%nat with
  | None => None
  | Some eq_pos =>
      let path := Py.strip (Py.take eq_pos s) in
      let rhs := Py.strip (Py.drop (S eq_pos) s) in
      match path with
      | EmptyString => None
      | _ =>
          let '(value_src, comment) :=
            match find_outside_quotes "#" false false rhs 0%nat with
            | Some hash_pos =>
                (Py.rstrip (Py.take hash_pos rhs),
                 Some (Py.strip (Py.drop (S hash_pos) rhs)))
            | None => (rhs, None)
            end in
          match value_src with
          | EmptyString => None
          | _ => Some (path, value_src, comment)
          end
      end
  end.

(** [_find_equals_outside_quotes]; [prev] is [line[i - 1]] when [i > 0].
    [None] stands for the result [-1]. *)
Fixpoint find_equals_loop (in_dq in_sq : bool) (prev : option ascii)
    (s : string) (i : nat) : option nat :=
  match s with
  | EmptyString => None
  | String ch r =>
      if Ascii.eqb ch Py.DQ && negb in_sq then
        if match prev with Some p => Ascii.eqb p Py.BSL | None => false end
        then find_equals_loop in_dq in_sq (Some ch) r (S i)
        else find_equals_loop (negb in_dq) in_sq (Some ch) r (S i)
      else if Ascii.eqb ch Py.SQ && negb in_dq then
        find_equals_loop in_dq (negb in_sq) (Some ch) r (S i)
      else if Ascii.eqb ch "=" && negb in_dq && negb in_sq then Some i
      else find_equals_loop in_dq in_sq (Some ch) r (S i)
  end.

Definition _find_equals_outside_quotes (line : string) : option nat :=
  find_equals_loop false false None line 0%nat.

(** [None] is the result [None] of the source. *)
Definition _parse_assignment_key_segments (lhs : string) : option (list string) :=
  let lhs := Py.strip lhs in
  match lhs with
  | EmptyString => None
  | _ =>
      if Py.startswith lhs "#" then None
      else Some (map _unquote_key (_split_path_tokens lhs))
  end.

(** ** Headers and the header indexer *)

Inductive Kind := root | table | aot.

#[global] Instance Kind_eq_dec : EqDecision Kind.
Proof. solve_decision. Defined.

(** Represents either a normal table [[a.b]] or an array-of-tables
    [[[a.b]]], or the root pseudo-section. *)
Record Header := {
  kind : Kind;
  path : list string;        (* dotted segments *)
  aot_index : option nat;    (* only for kind = aot, 0-based *)
  start_line : Z;            (* header line index (for root: -1) *)
  end_line : Z               (* inclusive; set later *)
}.

Definition set_end_line (h : Header) (e : Z) : Header :=
  {| kind := kind h; path := path h; aot_index := aot_index h;
     start_line := start_line h; end_line := e |}.

(** For an array-of-tables header with an empty path the source raises
    [IndexError] at [self.path[-1]]; the locator calls [id_segments] on the
    root header or on a header whose path equals a table path that is not
    empty, and the model gives no segment there. *)
Definition id_segments (h : Header) : list PathSegment :=
  match kind h with
  | aot =>
      map seg (removelast (path h))
        ++ match last (path h) with
           | Some l => [ {| name := l; index := aot_index h |} ]
           | None => []
           end
  | table => map seg (path h)
  | root => []
  end.

(** [.*$]: any characters but a newline, up to the end of the text or to a
    newline that is its last character. *)
Fixpoint dot_star_end (x : string) : bool :=
  match x with
  | EmptyString => true
  | String c r =>
      if Ascii.eqb c Py.LF then match r with EmptyString => true | _ => false end
      else dot_star_end r
  end.

(** White space, an optional [#.*] and [$]: the part of both header patterns after the closing
    bracket.  [\s*] takes all the white space there is (a final newline
    included); what is left is nothing, or a comment up to the end. *)
Definition header_tail_match (t : string) : bool :=
  match Py.lstrip t with
  | EmptyString => true
  | String c x => Ascii.eqb c "#" && dot_star_end x
  end.

(** The lazy group [(?P<body>.+?)]: [body] (not empty) is what the group
    holds so far and [s] the text after it; the group ends at the first
    place where [closes] accepts the rest, and grows by one character, never
    a newline, otherwise. *)
Fixpoint lazy_body (closes : string -> bool) (body s : string) : option string :=
  if closes s then Some body
  else match s with
       | EmptyString => None
       | String c r =>
           if Ascii.eqb c Py.LF then None
           else lazy_body closes (body +:+ Py.char c) r
       end.

Definition closes_table (s : string) : bool :=
  match s with
  | String c r => Ascii.eqb c "]" && header_tail_match r
  | EmptyString => false
  end.

Definition closes_aot (s : string) : bool :=
  match s with
  | String c (String d r) =>
      Ascii.eqb c "]" && Ascii.eqb d "]" && header_tail_match r
  | _ => false
  end.

(** [_HEADER_TABLE_RE]: [^\s*\[(?!\[)(?P<body>.+?)\]], then the tail
    above. *)
Definition _HEADER_TABLE_RE_match (line : string) : option string :=
  match Py.lstrip line with
  | String o (String c r) =>
      if Ascii.eqb o "[" && negb (Ascii.eqb c "[") && negb (Ascii.eqb c Py.LF)
      then lazy_body closes_table (Py.char c) r
      else None
  | _ => None
  end.

(** [_HEADER_AOT_RE]: [^\s*\[\[(?P<body>.+?)\]\]], then the tail above. *)
Definition _HEADER_AOT_RE_match (line : string) : option string :=
  match Py.lstrip line with
  | String o (String o' (String c r)) =>
      if Ascii.eqb o "[" && Ascii.eqb o' "[" && negb (Ascii.eqb c Py.LF)
      then lazy_body closes_aot (Py.char c) r
      else None
  | _ => None
  end.

Definition _parse_header_line (line : string) : option (Kind * list string) :=
  match _HEADER_TABLE_RE_match line with
  | Some body =>
      Some (table, map _unquote_key (_split_path_tokens (Py.strip body)))
  | None =>
      match _HEADER_AOT_RE_match line with
      | Some body =>
          Some (aot, map _unquote_key (_split_path_tokens (Py.strip body)))
      | None => None
      end
  end.

Definition _is_comment_or_blank (line : string) : bool :=
  match Py.strip line with
  | EmptyString => true
  | s => Py.startswith s "#"
  end.

(** [lines[j]] where the code reads a line at an index it keeps within
    [0 .. len(lines) - 1]. *)
Definition line_at (lines : list string) (j : Z) : string :=
  default "" (lines !! Z.to_nat j).

(** First pass of [index_headers]: the lines from index [i] on, with the
    counters of the array-of-tables headers seen before. *)
Fixpoint scan_headers (lines : list string) (i : Z)
    (aot_counters : gmap (list string) nat) : list Header :=
  match lines with
  | [] => []
  | line :: rest =>
      match _parse_header_line line with
      | None => scan_headers rest (i + 1) aot_counters
      | Some (aot, p) =>
          let idx := default 0%nat (aot_counters !! p) in
          {| kind := aot; path := p; aot_index := Some idx;
             start_line := i; end_line := i |}
            :: scan_headers rest (i + 1) (<[p := S idx]> aot_counters)
      | Some (_, p) =>
          {| kind := table; path := p; aot_index := None;
             start_line := i; end_line := i |}
            :: scan_headers rest (i + 1) aot_counters
      end
  end.

(** [j = end; while j > h.start_line and _is_comment_or_blank(lines[j]):
    j -= 1], with [j = start + d]. *)
Fixpoint trim_back (lines : list string) (start : Z) (d : nat) : Z :=
  match d with
  | O => start
  | S d' =>
      if _is_comment_or_blank (line_at lines (start + Z.of_nat d))
      then trim_back lines start d'
      else start + Z.of_nat d
  end.

(** The whole loop from [j = e]; it does not run when [e <= start]. *)
Definition walk_back (lines : list string) (start e : Z) : Z :=
  if e <=? start then e
  else trim_back lines start (Z.to_nat (e - start)).

(** Second pass of [index_headers]: the end line of each header. *)
Fixpoint compute_end_lines (lines : list string) (headers : list Header)
  : list Header :=
  match headers with
  | [] => []
  | h :: rest =>
      let next_start :=
        match rest with
        | h' :: _ => start_line h'
        | [] => Z.of_nat (length lines)
        end in
      let e := next_start - 1 in
      (match kind h with
       | root => set_end_line h e
       | _ => set_end_line h (walk_back lines (start_line h) e)
       end) :: compute_end_lines lines rest
  end.

Definition root_header : Header :=
  {| kind := root; path := []; aot_index := None;
     start_line := -1; end_line := -1 |}.

Definition index_headers (lines : list string) : list Header :=
  compute_end_lines lines (root_header :: scan_headers lines 0 ∅).

(** ** Section resolution *)

Inductive exn := KeyError | RuntimeError.

Inductive result (A : Type) :=
| Ok (a : A)
| Raise (e : exn).
Arguments Ok {A} a.
Arguments Raise {A} e.

Definition segment_eqb (sa sb : PathSegment) : bool :=
  bool_decide (name sa = name sb) && bool_decide (index sa = index sb).

Fixpoint zip_all_equal (a b : list PathSegment) : bool :=
  match a, b with
  | sa :: a', sb :: b' => segment_eqb sa sb && zip_all_equal a' b'
  | _, _ => true
  end.

Definition _segments_equal (a b : list PathSegment) : bool :=
  bool_decide (length a = length b) && zip_all_equal a b.

Definition block (h : Header) : Header * Z * Z :=
  (h, start_line h + 1, end_line h).

(** Find a section block (start, end) lines that correspond to the given
    path segments. *)
Definition find_section_block (headers : list Header)
    (target : list PathSegment) : result (Header * Z * Z) :=
  match last target with
  | None =>
      match filter (λ h, kind h = root) headers with
      | h :: _ => Ok (block h)
      | [] => Raise RuntimeError   (* root header missing *)
      end
  | Some t =>
      let table_path := map name target in
      match index t with
      | Some wanted_idx =>
          match filter (λ h, kind h = aot ∧ path h = table_path
                             ∧ aot_index h = Some wanted_idx) headers with
          | [] => Raise KeyError   (* section not found *)
          | h :: _ => Ok (block h)
          end
      | None =>
          match filter (λ h, kind h = table ∧ path h = table_path) headers with
          | h :: _ => Ok (block h)
          | [] =>
              match filter (λ h, kind h = aot ∧ path h = table_path) headers with
              | [] => Raise KeyError        (* section not found *)
              | [h] => Ok (block h)
              | _ :: _ :: _ => Raise RuntimeError   (* ambiguous *)
              end
          end
      end
  end.

(** ** The value-boundary scanner *)

Record ScanState := {
  depth_square : nat;
  depth_curly : nat;
  in_dq : bool;
  in_sq : bool;
  in_triple_dq : bool;
  in_triple_sq : bool
}.

Definition scan_init : ScanState :=
  {| depth_square := 0; depth_curly := 0; in_dq := false; in_sq := false;
     in_triple_dq := false; in_triple_sq := false |}.

Definition TRIPLE_DQ : string := String Py.DQ (String Py.DQ (Py.char Py.DQ)).
Definition TRIPLE_SQ : string := "'''".

Definition with_square (st : ScanState) (n : nat) : ScanState :=
  {| depth_square := n; depth_curly := depth_curly st; in_dq := in_dq st;
     in_sq := in_sq st; in_triple_dq := in_triple_dq st;
     in_triple_sq := in_triple_sq st |}.
Definition with_curly (st : ScanState) (n : nat) : ScanState :=
  {| depth_square := depth_square st; depth_curly := n; in_dq := in_dq st;
     in_sq := in_sq st; in_triple_dq := in_triple_dq st;
     in_triple_sq := in_triple_sq st |}.
Definition with_dq (st : ScanState) (b : bool) : ScanState :=
  {| depth_square := depth_square st; depth_curly := depth_curly st;
     in_dq := b; in_sq := in_sq st; in_triple_dq := in_triple_dq st;
     in_triple_sq := in_triple_sq st |}.
Definition with_sq (st : ScanState) (b : bool) : ScanState :=
  {| depth_square := depth_square st; depth_curly := depth_curly st;
     in_dq := in_dq st; in_sq := b; in_triple_dq := in_triple_dq st;
     in_triple_sq := in_triple_sq st |}.
Definition with_triple_dq (st : ScanState) (b : bool) : ScanState :=
  {| depth_square := depth_square st; depth_curly := depth_curly st;
     in_dq := in_dq st; in_sq := in_sq st; in_triple_dq := b;
     in_triple_sq := in_triple_sq st |}.
Definition with_triple_sq (st : ScanState) (b : bool) : ScanState :=
  {| depth_square := depth_square st; depth_curly := depth_curly st;
     in_dq := in_dq st; in_sq := in_sq st; in_triple_dq := in_triple_dq st;
     in_triple_sq := b |}.

(** One turn of the inner loop at position [j], with [ch = text[j]] and
    [nxt3 = text[j : j + 3]].  [None]: an inline comment starts, the
    function returns the current line.  [Some (st, k)]: the new state, and
    [j] moves on by [1 + k]. *)
Definition scan_char (st : ScanState) (ch : ascii) (nxt3 : string)
  : option (ScanState * nat) :=
  if in_triple_dq st then
    if String.eqb nxt3 TRIPLE_DQ then Some (with_triple_dq st false, 2%nat)
    else Some (st, 0%nat)
  else if in_triple_sq st then
    if String.eqb nxt3 TRIPLE_SQ then Some (with_triple_sq st false, 2%nat)
    else Some (st, 0%nat)
  else if in_dq st then
    if Ascii.eqb ch Py.BSL then Some (st, 1%nat)
    else if Ascii.eqb ch Py.DQ then Some (with_dq st false, 0%nat)
    else Some (st, 0%nat)
  else if in_sq st then
    if Ascii.eqb ch Py.SQ then Some (with_sq st false, 0%nat)
    else Some (st, 0%nat)
  (* not in any string *)
  else if String.eqb nxt3 TRIPLE_DQ then Some (with_triple_dq st true, 2%nat)
  else if String.eqb nxt3 TRIPLE_SQ then Some (with_triple_sq st true, 2%nat)
  else if Ascii.eqb ch Py.DQ then Some (with_dq st true, 0%nat)
  else if Ascii.eqb ch Py.SQ then Some (with_sq st true, 0%nat)
  else if Ascii.eqb ch "[" then Some (with_square st (S (depth_square st)), 0%nat)
  else if Ascii.eqb ch "]" then
    Some (with_square st (Nat.pred (depth_square st)), 0%nat)
  else if Ascii.eqb ch "{" then Some (with_curly st (S (depth_curly st)), 0%nat)
  else if Ascii.eqb ch "}" then
    Some (with_curly st (Nat.pred (depth_curly st)), 0%nat)
  else if Ascii.eqb ch "#" && bool_decide (depth_square st = 0%nat)
          && bool_decide (depth_curly st = 0%nat)
  then None
  else Some (st, 0%nat).

(** The inner loop over one line's text from position [j] on; [skip]
    characters are passed over first (the rest of a [j += 2] or [j += 3]).
    [None]: returned at an inline comment; [Some st]: the end of the line
    was reached in state [st]. *)
Fixpoint scan_text (st : ScanState) (skip : nat) (text : string)
  : option ScanState :=
  match text with
  | EmptyString => Some st
  | String ch r =>
      match skip with
      | S k => scan_text st k r
      | O =>
          match scan_char st ch (Py.take 3 text) with
          | None => None
          | Some (st', k) => scan_text st' k r
          end
      end
  end.

(** The test at the end of a line. *)
Definition value_ends (st : ScanState) : bool :=
  bool_decide (depth_square st = 0%nat) && bool_decide (depth_curly st = 0%nat)
  && negb (in_dq st || in_sq st || in_triple_dq st || in_triple_sq st).

(** The outer loop from line [i] on: [texts] are the texts of the lines
    [i], [i + 1], ... and [last] is [len(lines) - 1]. *)
Fixpoint value_lines (st : ScanState) (i : Z) (texts : list string)
    (last : Z) : Z :=
  match texts with
  | [] => last
  | text :: rest =>
      match scan_text st 0 text with
      | None => i
      | Some st' =>
          if value_ends st' then i else value_lines st' (i + 1) rest last
      end
  end.

(** Determine inclusive end line index of a value that starts on
    [start_line] at [start_col] (right after the equals sign).  Both are
    positions, never negative: the one caller passes a line index inside
    the document and [eq_pos + 1]. *)
Definition _value_block_end (lines : list string) (start_line start_col : nat)
  : Z :=
  let last := Z.of_nat (length lines) - 1 in
  match drop start_line lines with
  | [] => last
  | line :: rest =>
      value_lines scan_init (Z.of_nat start_line)
        (Py.drop start_col line :: rest) last
  end.

(** ** The assignment locator *)

Definition Match : Type := Z * Z * list string.

(** The body of the locator's loop for line [i]: the match it appends, if
    any. *)
Definition assignment_match (lines : list string) (header : Header)
    (full_path : list PathSegment) (i : Z) (line : string) : option Match :=
  let stripped := Py.lstrip line in
  if match stripped with EmptyString => true | _ => false end
     || Py.startswith stripped "#" || Py.startswith stripped "["
  then None
  else
    match _find_equals_outside_quotes line with
    | None => None
    | Some eq_pos =>
        let lhs := Py.take eq_pos line in
        match _parse_assignment_key_segments lhs with
        | None | Some [] => None
        | Some ksegs =>
            let full_key := id_segments header ++ map seg ksegs in
            if _segments_equal full_key full_path then
              Some (i, _value_block_end lines (Z.to_nat i) (S eq_pos), ksegs)
            else None
        end
    end.

(** [while i <= end and i < len(lines)]: [rest] holds the lines from index
    [i] on. *)
Fixpoint collect_matches (lines : list string) (header : Header)
    (full_path : list PathSegment) (end_ : Z) (i : Z) (rest : list string)
  : list Match :=
  match rest with
  | [] => []
  | line :: rest' =>
      if end_ <? i then []
      else
        match assignment_match lines header full_path i line with
        | Some m => m :: collect_matches lines header full_path end_ (i + 1) rest'
        | None => collect_matches lines header full_path end_ (i + 1) rest'
        end
  end.

Definition find_assignment_block_by_full_path (lines : list string)
    (headers : list Header) (full_path : list PathSegment) : result Match :=
  match full_path with
  | [] => Raise KeyError   (* invalid empty path *)
  | _ =>
      let table_path := removelast full_path in
      match find_section_block headers table_path with
      | Raise e => Raise e
      | Ok (header, start, end_) =>
          let i := Z.max start 0 in
          let matches :=
            collect_matches lines header full_path end_ i
              (drop (Z.to_nat i) lines) in
          match matches with
          | [] =>
              match last table_path with
              | Some t =>
                  match index t with
                  | None =>
                      let tp := map name table_path in
                      if bool_decide
                           (1 < length (filter (λ h, kind h = aot ∧ path h = tp)
                                          headers))%nat
                      then Raise RuntimeError   (* ambiguous *)
                      else Raise KeyError       (* key not found *)
                  | Some _ => Raise KeyError
                  end
              | None => Raise KeyError
              end
          | [m] => Ok m
          | _ => Raise RuntimeError   (* ambiguous *)
          end
      end
  end.

(** ** Top-of-file comment replacement *)

(** [while i < len(lines)]: the number of leading lines that are blank or
    start a comment. *)
Fixpoint top_comment_end (lines : list string) : nat :=
  match lines with
  | line :: rest =>
      let s := Py.strip line in
      if match s with EmptyString => true | _ => false end
         || Py.startswith s "#"
      then S (top_comment_end rest)
      else O
  | [] => O
  end.

Definition comment_line (raw_line : string) : string :=
  match Py.strip raw_line with
  | EmptyString => "#" +:+ Py.char Py.LF
  | _ => "# " +:+ Py.rstrip raw_line +:+ Py.char Py.LF
  end.

Definition replace_top_comment_block (text : string) (new_text : option string)
  : string :=
  let lines := Py.splitlines true text in
  let i := top_comment_end lines in
  let new_lines :=
    match new_text with
    | Some new_text =>
        map comment_line (Py.splitlines false new_text) ++ [Py.char Py.LF]
    | None => []
    end in
  Py.join0 (new_lines ++ drop i lines).

(** ** Patching operations *)

Record SetPatch := {
  set_path : list PathSegment;
  value_src : string;
  value_obj : value;
  comment : option string
}.

(** The run ends in [sys.exit(code)], or goes on with a value. *)
Inductive outcome (A : Type) :=
| Continue (a : A)
| Exit (code : Z).
Arguments Continue {A} a.
Arguments Exit {A} code.

Definition exit_of_exn (e : exn) : Z :=
  match e with
  | KeyError => 2       (* requested path not found *)
  | RuntimeError => 3   (* ambiguous path *)
  end.

Definition set_line (ksegs : list string) (setp : SetPatch) : string :=
  let lhs := Py.join "." (map _format_key_segment ksegs) in
  let rhs := format_toml_value (value_obj setp) in
  match comment setp with
  | Some ((String _ _) as c) => lhs +:+ " = " +:+ rhs +:+ " # " +:+ c +:+ Py.char Py.LF
  | _ => lhs +:+ " = " +:+ rhs +:+ Py.char Py.LF
  end.

Definition apply_set (lines : list string) (setp : SetPatch)
  : outcome (list string) :=
  let headers := index_headers lines in
  match find_assignment_block_by_full_path lines headers (set_path setp) with
  | Raise e => Exit (exit_of_exn e)
  | Ok (start, end_, ksegs) =>
      Continue (Py.slice_to lines start ++ [set_line ksegs setp]
                  ++ Py.slice_from lines (end_ + 1))
  end.

Definition apply_delete_key (lines : list string) (delp : list PathSegment)
  : outcome (list string) :=
  let headers := index_headers lines in
  match find_assignment_block_by_full_path lines headers delp with
  | Raise e => Exit (exit_of_exn e)
  | Ok (start, end_, _ksegs) =>
      Continue (Py.slice_to lines start ++ Py.slice_from lines (end_ + 1))
  end.

Definition apply_delete_section (lines : list string) (delsec : list PathSegment)
  : outcome (list string) :=
  let headers := index_headers lines in
  match find_section_block headers delsec with
  | Raise e => Exit (exit_of_exn e)
  | Ok (header, start, end_) =>
      match kind header with
      | root => Exit 4   (* cannot delete root section *)
      | _ =>
          let del_start := start_line header in
          let del_end := end_ in
          Continue (Py.slice_to lines del_start
                      ++ Py.slice_from lines (del_end + 1))
      end
  end.

(** ** The driver *)

Record Args := {
  sets : list string;
  del_keys : list string;
  del_secs : list string;
  top_comment : option string
}.

(** What a run leaves behind: the exit code of the process and the text
    written to the output file, if the run wrote it. *)
Record Run := {
  exit_code : Z;
  written : option string
}.

Definition stop (code : Z) : Run := {| exit_code := code; written := None |}.

(** The operations a run requests, in the order the driver applies them. *)
Inductive Op :=
| OpSet (spec : string)
| OpDeleteKey (pth : string)
| OpDeleteSection (pth : string).

Definition requested (args : Args) : list Op :=
  map OpSet (sets args) ++ map OpDeleteKey (del_keys args)
    ++ map OpDeleteSection (del_secs args).

(** Reading in text mode with the default [newline=None]: a carriage return
    followed by a line feed, and a carriage return alone, become one line
    feed. *)
Fixpoint universal_newlines (s : string) : string :=
  match s with
  | EmptyString => EmptyString
  | String c r =>
      if Ascii.eqb c Py.CR then
        match r with
        | String c2 r2 =>
            if Ascii.eqb c2 Py.LF then String Py.LF (universal_newlines r2)
            else String Py.LF (universal_newlines r)
        | EmptyString => Py.char Py.LF
        end
      else String c (universal_newlines r)
  end.

(** [f.read()] on the input file with content [file]; [None] when the file
    cannot be read. *)
Definition read_input (file : option string) : option string :=
  option_map universal_newlines file.

Section Driver.

(** The delegated TOML object parser: [toml_valid text] holds when
    [tomllib.loads(text)] raises nothing, and [toml_loads_k snippet] is
    [tomllib.loads(snippet)["__k__"]], [None] when [loads] raises. *)
Variable toml_valid : string -> bool.
Variable toml_loads_k : string -> option value.

(** Parse a TOML literal from a [key = VALUE] snippet; [None] is the
    [ValueError]. *)
Definition parse_toml_value (value_src : string) : option value :=
  toml_loads_k ("__k__ = " +:+ value_src +:+ Py.char Py.LF).

Definition validate_toml_document (text : string) : bool := toml_valid text.

(** The [try] block of the loop over [args.sets]; [None] is the
    [ValueError]. *)
Definition parse_set (spec : string) : option SetPatch :=
  match split_set_expression spec with
  | None => None
  | Some (path_str, value_src, comment) =>
      let path := parse_path_with_indices path_str in
      match parse_toml_value value_src with
      | None => None
      | Some value_obj =>
          Some {| set_path := path; value_src := value_src;
                  value_obj := value_obj; comment := comment |}
      end
  end.

Fixpoint run_sets (specs : list string) (lines : list string)
  : outcome (list string) :=
  match specs with
  | [] => Continue lines
  | spec :: rest =>
      match parse_set spec with
      | None => Exit 4   (* invalid --set payload *)
      | Some setp =>
          match apply_set lines setp with
          | Exit c => Exit c
          | Continue lines' => run_sets rest lines'
          end
      end
  end.

Fixpoint run_del_keys (pths : list string) (lines : list string)
  : outcome (list string) :=
  match pths with
  | [] => Continue lines
  | pth :: rest =>
      match apply_delete_key lines (parse_path_with_indices pth) with
      | Exit c => Exit c
      | Continue lines' => run_del_keys rest lines'
      end
  end.

Fixpoint run_del_secs (pths : list string) (lines : list string)
  : outcome (list string) :=
  match pths with
  | [] => Continue lines
  | pth :: rest =>
      match apply_delete_section lines (parse_path_with_indices pth) with
      | Exit c => Exit c
      | Continue lines' => run_del_secs rest lines'
      end
  end.

(** [input_file] is what [f.read()] returns on the input file, opened in
    text mode: its text with the line ends translated ([read_input]), [None]
    if it cannot be read; [output_writable] tells whether writing the
    output succeeds.  The output is opened with [newline=""] and written as
    it is. *)
Definition main (args : Args) (input_file : option string)
    (output_writable : bool) : Run :=
  match input_file with
  | None => stop 1   (* cannot read input *)
  | Some text =>
      if negb (validate_toml_document text) then stop 1   (* invalid input TOML *)
      else
        let text :=
          match top_comment args with
          | Some c => replace_top_comment_block text (Some c)
          | None => text
          end in
        let lines := Py.splitlines true text in
        (* Apply in simple, predictable groups: sets -> delete-key -> delete-section *)
        match run_sets (sets args) lines with
        | Exit c => stop c
        | Continue lines =>
            match run_del_keys (del_keys args) lines with
            | Exit c => stop c
            | Continue lines =>
                match run_del_secs (del_secs args) lines with
                | Exit c => stop c
                | Continue lines =>
                    let out_text := Py.join0 lines in
                    if output_writable
                    then {| exit_code := 0; written := Some out_text |}
                    else stop 5   (* cannot write output *)
                end
            end
        end
  end.

(** One turn of one of the driver's three loops. *)
Definition run_op (op : Op) (lines : list string) : outcome (list string) :=
  match op with
  | OpSet spec =>
      match parse_set spec with
      | None => Exit 4
      | Some setp => apply_set lines setp
      end
  | OpDeleteKey pth => apply_delete_key lines (parse_path_with_indices pth)
  | OpDeleteSection pth =>
      apply_delete_section lines (parse_path_with_indices pth)
  end.

Fixpoint run_ops (ops : list Op) (lines : list string) : outcome (list string) :=
  match ops with
  | [] => Continue lines
  | op :: rest =>
      match run_op op lines with
      | Exit c => Exit c
      | Continue lines' => run_ops rest lines'
      end
  end.

(** The document the operations start from: the input text, with its top
    comment replaced if the run asks for it, split into lines. *)
Definition initial_lines (args : Args) (text : string) : list string :=
  Py.splitlines true
    match top_comment args with
    | Some c => replace_top_comment_block text (Some c)
    | None => text
    end.

End Driver.

(** ** The vocabulary of the properties *)

(** The start line of the header after position [k], or the length of the
    document for the last header. *)
Definition next_start (lines : list string) (hs : list Header) (k : nat) : Z :=
  match hs !! S k with
  | Some h' => start_line h'
  | None => Z.of_nat (length lines)
  end.

(** The number of array-of-tables headers with path [p] in [hs]. *)
Definition occurrences (p : list string) (hs : list Header) : nat :=
  length (filter (λ x, kind x = aot ∧ path x = p) hs).

(** The end line the second pass gives header [h] when the next header
    starts at [ns]. *)
Definition content_end (lines : list string) (h : Header) (ns : Z) : Z :=
  match kind h with
  | root => ns - 1
  | _ => walk_back lines (start_line h) (ns - 1)
  end.

(** The state in which the scan arrives after the given texts, each read
    to its end; [None] if one of them holds an inline comment that stops
    the scan. *)
Fixpoint carried (st : ScanState) (texts : list string) : option ScanState :=
  match texts with
  | [] => Some st
  | t :: rest =>
      match scan_text st 0 t with
      | None => None
      | Some st' => carried st' rest
      end
  end.

(** A line entered in state [st] finishes the value: an unquoted [#] is met
    with both depths zero, or the end of the line is reached outside any
    string with both depths zero. *)
Definition finishes (st : ScanState) (text : string) : bool :=
  match scan_text st 0 text with
  | None => true
  | Some st' => value_ends st'
  end.

(** The scan from [st0] reaches text number [n] and finishes there, or
    reaches it and goes on to the next line. *)
Definition finishes_at (st0 : ScanState) (texts : list string) (n : nat) : Prop :=
  ∃ st text, carried st0 (take n texts) = Some st ∧ texts !! n = Some text
             ∧ finishes st text = true.

Definition continues_at (st0 : ScanState) (texts : list string) (n : nat) : Prop :=
  ∃ st text, carried st0 (take n texts) = Some st ∧ texts !! n = Some text
             ∧ finishes st text = false.

(** The texts the scanner reads: the first line from [start_col] on, then
    whole lines. *)
Definition value_texts (lines : list string) (start_line start_col : nat)
  : list string :=
  match drop start_line lines with
  | [] => []
  | line :: rest => Py.drop start_col line :: rest
  end.

(** Line [j] of the document is an assignment whose full key is the
    requested path; [m] is what the locator records for it. *)
Definition matching_line (lines : list string) (header : Header)
    (full_path : list PathSegment) (j : nat) (m : Match) : Prop :=
  ∃ line, lines !! j = Some line
          ∧ assignment_match lines header full_path (Z.of_nat j) line = Some m.


(** The content end as the specification words it, for any header: the
    line before the next header's start [ns], walked backward while the
    line is blank or a comment. *)
Definition trimmed_end (lines : list string) (h : Header) (ns : Z) : Z :=
  walk_back lines (start_line h) (ns - 1).

(** *** Sample documents *)

Definition nl (s : string) : string := s +:+ Py.char Py.LF.
Definition dq (s : string) : string := Py.char Py.DQ +:+ s +:+ Py.char Py.DQ.

Definition doc_two_groups : list string :=
  map nl ["[[group]]"; "field = 1"; "[[group]]"; "field = 2"].

Definition doc_scenario_a : list string :=
  map nl ["[simplest_config_possible]"; "int_value = 1"].


Definition doc_blank_before_table : list string :=
  map nl ["a = 1"; ""; "[t]"; "b = 2"; "# note"; ""].

Definition header_t : Header :=
  {| kind := table; path := ["t"]; aot_index := None;
     start_line := 2; end_line := 3 |}.

Definition doc_quoted_key : list string := [nl (dq "a" +:+ " = 1")].

Definition doc_multiline : list string :=
  map nl ["a = ["; "  1,"; "]"; "b = 2"].

Definition doc_open_array : list string := map nl ["x = [1,"; "y = 2"].

(** *** Classes of texts *)

(** Every character of [s] passes the test [p]. *)
Fixpoint all_chars (p : ascii -> bool) (s : string) : bool :=
  match s with
  | EmptyString => true
  | String c r => p c && all_chars p r
  end.

(** A name made of one or more bare-key characters. *)
Definition bare_name (s : string) : bool :=
  match s with
  | EmptyString => false
  | _ => all_chars is_bare_char s
  end.

(** A text that holds no line boundary. *)
Definition no_linebreak (s : string) : bool :=
  all_chars (fun c => negb (Py.islinebreak c)) s.

(** A line without line boundary inside, closed by a newline. *)
Definition closed_line (l : string) : Prop :=
  ∃ x, no_linebreak x = true ∧ l = x +:+ Py.char Py.LF.

(** The lines of a document that parse as a header line. *)
Definition header_lines (lines : list string) : list string :=
  filter (λ l, is_Some (_parse_header_line l)) lines.

(** *** The value scanner as the specification words it *)

(** The states of the specification's state machine, with its two nesting
    counters. *)
Inductive Mode :=
| Normal
| InDoubleQuoted
| InSingleQuoted
| InTripleDoubleQuoted
| InTripleSingleQuoted.

Record SpecState := {
  mode : Mode;
  squareDepth : nat;
  curlyDepth : nat
}.

Definition spec_init : SpecState :=
  {| mode := Normal; squareDepth := 0; curlyDepth := 0 |}.

Definition in_mode (s : SpecState) (m : Mode) : SpecState :=
  {| mode := m; squareDepth := squareDepth s; curlyDepth := curlyDepth s |}.

(** The three characters are the delimiter [q] three times. *)
Definition is3 (q a b c : ascii) : bool :=
  Ascii.eqb a q && Ascii.eqb b q && Ascii.eqb c q.

(** From Normal, one character that does not open a triple-quoted string:
    a lone quote enters the simple string state, brackets and braces move
    their depth (never below zero), and a [#] with both depths zero begins
    a comment ([None]). *)
Definition normal_char (s : SpecState) (c : ascii) : option SpecState :=
  if Ascii.eqb c Py.DQ then Some (in_mode s InDoubleQuoted)
  else if Ascii.eqb c Py.SQ then Some (in_mode s InSingleQuoted)
  else if Ascii.eqb c "[" then
    Some {| mode := Normal; squareDepth := S (squareDepth s);
            curlyDepth := curlyDepth s |}
  else if Ascii.eqb c "]" then
    Some {| mode := Normal; squareDepth := Nat.pred (squareDepth s);
            curlyDepth := curlyDepth s |}
  else if Ascii.eqb c "{" then
    Some {| mode := Normal; squareDepth := squareDepth s;
            curlyDepth := S (curlyDepth s) |}
  else if Ascii.eqb c "}" then
    Some {| mode := Normal; squareDepth := squareDepth s;
            curlyDepth := Nat.pred (curlyDepth s) |}
  else if Ascii.eqb c "#" && (squareDepth s =? 0)%nat && (curlyDepth s =? 0)%nat
  then None
  else Some s.

(** What one line does: a comment begins on it, or it is read to its end
    and leaves a state. *)
Inductive LineEnd :=
| CommentBegins
| LineRead (s : SpecState).

(** The state machine over the text of one line.  From Normal a triple
    delimiter is looked for before a lone quote; inside double quotes a
    backslash skips the next character; inside a triple-quoted string only
    the matching triple delimiter counts. *)
Fixpoint spec_line (s : SpecState) (text : string) : LineEnd :=
  match text with
  | EmptyString => LineRead s
  | String c r =>
      match mode s with
      | Normal =>
          let single :=
            match normal_char s c with
            | None => CommentBegins
            | Some s' => spec_line s' r
            end in
          match r with
          | String c2 (String c3 r3) =>
              if is3 Py.DQ c c2 c3 then
                spec_line (in_mode s InTripleDoubleQuoted) r3
              else if is3 Py.SQ c c2 c3 then
                spec_line (in_mode s InTripleSingleQuoted) r3
              else single
          | _ => single
          end
      | InDoubleQuoted =>
          if Ascii.eqb c Py.BSL then
            match r with
            | String _ r2 => spec_line s r2
            | EmptyString => LineRead s
            end
          else if Ascii.eqb c Py.DQ then spec_line (in_mode s Normal) r
          else spec_line s r
      | InSingleQuoted =>
          if Ascii.eqb c Py.SQ then spec_line (in_mode s Normal) r
          else spec_line s r
      | InTripleDoubleQuoted =>
          match r with
          | String c2 (String c3 r3) =>
              if is3 Py.DQ c c2 c3 then spec_line (in_mode s Normal) r3
              else spec_line s r
          | _ => spec_line s r
          end
      | InTripleSingleQuoted =>
          match r with
          | String c2 (String c3 r3) =>
              if is3 Py.SQ c c2 c3 then spec_line (in_mode s Normal) r3
              else spec_line s r
          | _ => spec_line s r
          end
      end
  end.

(** The value terminates at the end of a line where the state is Normal
    and both depths are zero. *)
Definition spec_ends (s : SpecState) : bool :=
  match mode s with
  | Normal => (squareDepth s =? 0)%nat && (curlyDepth s =? 0)%nat
  | _ => false
  end.

(** A line entered in state [s] ends the value: a comment begins on it, or
    its end is reached in Normal with both depths zero. *)
Definition spec_finishes (s : SpecState) (text : string) : bool :=
  match spec_line s text with
  | CommentBegins => true
  | LineRead s' => spec_ends s'
  end.

(** The state after the given lines, each read to its end. *)
Fixpoint spec_carried (s : SpecState) (texts : list string) : option SpecState :=
  match texts with
  | [] => Some s
  | t :: rest =>
      match spec_line s t with
      | CommentBegins => None
      | LineRead s' => spec_carried s' rest
      end
  end.

(** Line number [n] is reached with a string open or a depth positive, or
    not (state [s]), and ends the value, or leaves it open. *)
Definition spec_finishes_at (s0 : SpecState) (texts : list string) (n : nat)
  : Prop :=
  ∃ s text, spec_carried s0 (take n texts) = Some s ∧ texts !! n = Some text
            ∧ spec_finishes s text = true.

Definition spec_continues_at (s0 : SpecState) (texts : list string) (n : nat)
  : Prop :=
  ∃ s text, spec_carried s0 (take n texts) = Some s ∧ texts !! n = Some text
            ∧ spec_finishes s text = false.

(** The scanner's state that stands for a state of the specification: the
    flag of the state's string kind is set, and no other. *)
Definition scan_state_of (s : SpecState) : ScanState :=
  {| depth_square := squareDepth s;
     depth_curly := curlyDepth s;
     in_dq := match mode s with InDoubleQuoted => true | _ => false end;
     in_sq := match mode s with InSingleQuoted => true | _ => false end;
     in_triple_dq := match mode s with InTripleDoubleQuoted => true | _ => false end;
     in_triple_sq := match mode s with InTripleSingleQuoted => true | _ => false end |}.

Definition doc_triple_quoted : list string :=
  map nl ["a = " +:+ TRIPLE_DQ +:+ "x"; "y # [ no comment"; "z" +:+ TRIPLE_DQ;
          "b = 1"].

(** * Properties *)

(** ** General facts about lists *)

Section ListFacts.
Context {A : Type} (P : A → Prop) `{!∀ x, Decision (P x)}.

Lemma filter_none (l : list A) : Forall (λ x, ¬ P x) l → filter P l = [].
Proof.
  induction 1 as [|x l Hx _ IH]; [done|].
  by rewrite filter_cons_False.
Qed.

Lemma filter_first (pre post : list A) (h : A) :
  Forall (λ x, ¬ P x) pre → P h →
  filter P (pre ++ h :: post) = h :: filter P post.
Proof.
  intros Hpre Hh.
  by rewrite filter_app, (filter_none pre), filter_cons_True.
Qed.

Lemma filter_two (l : list A) (i j : nat) (a b : A) :
  (i < j)%nat → l !! i = Some a → l !! j = Some b → P a → P b →
  (2 <= length (filter P l))%nat.
Proof.
  intros Hij Hi Hj Ha Hb.
  rewrite <- (take_drop_middle l i a Hi).
  rewrite filter_app, filter_cons_True by done.
  assert (drop (S i) l !! (j - S i)%nat = Some b) as Hd.
  { rewrite lookup_drop. rewrite <- Hj. f_equal. lia. }
  rewrite <- (take_drop_middle _ _ b Hd).
  rewrite filter_app, filter_cons_True by done.
  rewrite length_app. simpl. rewrite length_app. simpl. lia.
Qed.
End ListFacts.

(** ** Section resolution without an index *)

(** C4.  For a table path whose final segment carries no index: the first
    exact table header with that dotted path is used if there is one;
    otherwise, among the array-of-tables headers with that path, none
    raises [KeyError] (path not found), exactly one resolves to it, and two
    or more raise [RuntimeError] (ambiguous path). *)
Theorem find_section_block_no_index (headers : list Header)
    (target : list PathSegment) (t : PathSegment) :
  last target = Some t → index t = None →
  let is_table h := kind h = table ∧ path h = map name target in
  let is_aot h := kind h = aot ∧ path h = map name target in
  (∀ pre h post,
      headers = pre ++ h :: post → Forall (λ x, ¬ is_table x) pre → is_table h →
      find_section_block headers target = Ok (block h))
  ∧ (Forall (λ x, ¬ is_table x) headers →
       (Forall (λ x, ¬ is_aot x) headers →
        find_section_block headers target = Raise KeyError)
     ∧ (∀ pre h post,
          headers = pre ++ h :: post → is_aot h →
          Forall (λ x, ¬ is_aot x) (pre ++ post) →
          find_section_block headers target = Ok (block h))
     ∧ (∀ i j h1 h2,
          i ≠ j → headers !! i = Some h1 → headers !! j = Some h2 →
          is_aot h1 → is_aot h2 →
          find_section_block headers target = Raise RuntimeError)).
Proof.
  intros Hlast Hidx is_table is_aot.
  unfold find_section_block. rewrite Hlast, Hidx.
  split.
  - intros pre h post -> Hpre Hh.
    by rewrite (filter_first is_table pre post h).
  - intros Hnone. rewrite (filter_none is_table headers Hnone).
    split; [|split].
    + intros Hno. by rewrite (filter_none is_aot headers Hno).
    + intros pre h post -> Hh Hrest.
      apply Forall_app in Hrest as [Hpre Hpost].
      by rewrite (filter_first is_aot pre post h), (filter_none is_aot post).
    + intros i j h1 h2 Hij Hi Hj H1 H2.
      assert (2 <= length (filter is_aot headers))%nat as Hlen.
      { destruct (decide (i < j)%nat).
        - by eapply (filter_two is_aot headers i j).
        - eapply (filter_two is_aot headers j i); [lia|done..]. }
      unfold is_aot in Hlen |- *.
      destruct (filter _ headers) as [|a [|b l]]; simpl in Hlen; [lia|lia|done].
Qed.

Lemma find_section_block_no_index_witness :
  find_section_block (index_headers doc_two_groups) [seg "group"]
  = Raise RuntimeError.
Proof.
  destruct (find_section_block_no_index (index_headers doc_two_groups)
              [seg "group"] (seg "group") eq_refl eq_refl) as [_ H].
  destruct H as (_ & _ & H).
  - repeat constructor; intros [Hk _]; discriminate Hk.
  - eapply (H 1%nat 2%nat); [lia|reflexivity|reflexivity|by split|by split].
Defined.

(** ** The header indexer *)

Lemma rstrip_keeps_head (c : ascii) (r : string) :
  Py.isspace c = false → ∃ r', Py.rstrip (String c r) = String c r'.
Proof.
  intros Hc. simpl. destruct (Py.rstrip r); rewrite ?Hc; eauto.
Qed.

Lemma lstrip_bracket_not_blank (line r : string) :
  Py.lstrip line = String "[" r → _is_comment_or_blank line = false.
Proof.
  intros H. unfold _is_comment_or_blank, Py.strip. rewrite H.
  destruct (rstrip_keeps_head "[" r eq_refl) as [r' ->]. reflexivity.
Qed.

Lemma header_line_not_blank (line : string) (kp : Kind * list string) :
  _parse_header_line line = Some kp → _is_comment_or_blank line = false.
Proof.
  unfold _parse_header_line, _HEADER_TABLE_RE_match, _HEADER_AOT_RE_match.
  intros H.
  destruct (Py.lstrip line) as [|o r] eqn:Hl; [done|].
  destruct (Ascii.eqb_spec o "[") as [->|Hne].
  - by eapply lstrip_bracket_not_blank.
  - destruct r as [|c [|c' r]]; simpl in H; done.
Qed.

(** What the first pass yields for the lines from index [i] on. *)
Lemma scan_headers_spec (lines : list string) :
  ∀ (i : Z) (m : gmap (list string) nat) (k : nat) (h : Header),
    scan_headers lines i m !! k = Some h →
    kind h ≠ root
    ∧ i <= start_line h < i + Z.of_nat (length lines)
    ∧ (∃ line, lines !! Z.to_nat (start_line h - i) = Some line
               ∧ _is_comment_or_blank line = false)
    ∧ (kind h = aot →
       aot_index h
       = Some (default 0%nat (m !! path h)
               + occurrences (path h) (take k (scan_headers lines i m)))%nat)
    ∧ (∀ k' h', (k < k')%nat → scan_headers lines i m !! k' = Some h' →
                start_line h < start_line h').
Proof.
  induction lines as [|line rest IH]; intros i m k h Hk; [done|].
  simpl in Hk |- *.
  assert (∀ m', (∀ k h, scan_headers rest (i + 1) m' !! k = Some h →
                   ∃ l0, (line :: rest) !! Z.to_nat (start_line h - i) = Some l0
                         ∧ _is_comment_or_blank l0 = false)) as Hshift.
  { intros m' k0 h0 H0. destruct (IH _ _ _ _ H0) as (_ & Hr & (l & Hl & Hb) & _).
    exists l. split; [|done].
    replace (Z.to_nat (start_line h0 - i)) with (S (Z.to_nat (start_line h0 - (i + 1)))) by lia.
    done. }
  destruct (_parse_header_line line) as [[kd p]|] eqn:Hp.
  - assert (_is_comment_or_blank line = false) as Hnb
      by (by eapply header_line_not_blank).
    destruct kd, k as [|k]; simpl in Hk;
      try (injection Hk as <-; simpl);
      try (destruct (IH _ _ _ _ Hk) as (Hkd & Hr & _ & Hidx & Hsort));
      (split; [done|]); (split; [lia|]);
      (split; [first [by eapply Hshift | exists line; by rewrite Z.sub_diag]|]);
      (split;
       [|intros [|k'] h' Hlt Hk'; [lia|]; simpl in Hk';
         first [ eapply Hsort; [|done]; lia
               | destruct (IH _ _ _ _ Hk') as (_ & Hr' & _); lia ]]);
      try done.
    + (* the first occurrence met from here: the counter's value *)
      intros _. unfold occurrences. simpl. f_equal. lia.
    + (* a later header, after an array-of-tables header with path [p] *)
      intros Ha. rewrite (Hidx Ha). unfold occurrences. simpl.
      destruct (decide (p = path h)) as [->|Hne].
      * rewrite lookup_insert_eq.
        rewrite filter_cons_True by done. simpl. f_equal. lia.
      * rewrite lookup_insert_ne by done.
        by rewrite filter_cons_False by (by intros [_ ?]).
  - destruct (IH _ _ _ _ Hk) as (Hkd & Hr & _ & Hidx & Hsort).
    repeat split; try done; try lia.
    by eapply Hshift.
Qed.

Lemma compute_end_lines_lookup (lines : list string) (hs : list Header) (k : nat) :
  compute_end_lines lines hs !! k
  = (λ h, set_end_line h (content_end lines h (next_start lines hs k)))
      <$> hs !! k.
Proof.
  revert k. induction hs as [|h rest IH]; intros k; [done|].
  destruct k as [|k].
  - simpl. unfold content_end, next_start. simpl.
    destruct rest; by destruct (kind h).
  - simpl. rewrite IH. unfold next_start. done.
Qed.

Lemma compute_end_lines_length (lines : list string) (hs : list Header) :
  length (compute_end_lines lines hs) = length hs.
Proof. induction hs; simpl; congruence. Qed.

(** The second pass changes no start line, so the start of the next header
    can be read before or after it. *)
Lemma next_start_compute (lines : list string) (hs : list Header) (k : nat) :
  next_start lines (compute_end_lines lines hs) k = next_start lines hs k.
Proof.
  unfold next_start. rewrite compute_end_lines_lookup.
  by destruct (hs !! S k).
Qed.

Lemma trim_back_spec (lines : list string) (start : Z) (d : nat) :
  let r := trim_back lines start d in
  start <= r <= start + Z.of_nat d
  ∧ (∀ j, r < j <= start + Z.of_nat d →
          _is_comment_or_blank (line_at lines j) = true)
  ∧ (r = start ∨ _is_comment_or_blank (line_at lines r) = false).
Proof.
  induction d as [|d IH]; cbn [trim_back]; cbv zeta in *.
  - split; [lia|]. split; [intros; lia|by left].
  - destruct (_is_comment_or_blank (line_at lines (start + Z.of_nat (S d))))
      eqn:Hb.
    + destruct IH as (Hr & Hall & Hend).
      split; [lia|]. split; [|done].
      intros j Hj.
      destruct (decide (j = start + Z.of_nat (S d))) as [->|]; [done|].
      apply Hall. lia.
    + split; [lia|]. split; [intros; lia|by right].
Qed.

Lemma walk_back_trim (lines : list string) (start e : Z) :
  start <= e →
  walk_back lines start e = trim_back lines start (Z.to_nat (e - start)).
Proof.
  intros Hle. unfold walk_back.
  destruct (e <=? start) eqn:He; [|done].
  apply Z.leb_le in He. assert (e = start) as -> by lia.
  by rewrite Z.sub_diag.
Qed.

(** What [index_headers] yields at position [k]: a header of the first
    pass, with its end line set. *)
Lemma index_headers_lookup (lines : list string) (k : nat) (h : Header) :
  index_headers lines !! k = Some h →
  ∃ h0, (root_header :: scan_headers lines 0 ∅) !! k = Some h0
        ∧ h = set_end_line h0
                (content_end lines h0 (next_start lines (index_headers lines) k)).
Proof.
  unfold index_headers at 1. rewrite compute_end_lines_lookup.
  destruct (_ !! k) as [h0|] eqn:Hk; [|done].
  intros [= <-]. exists h0. split; [done|].
  unfold index_headers. by rewrite next_start_compute.
Qed.

(** ** Content ends *)

(** C6, as amended.  The content end of every real header is the last line
    before the next header (or before the end of the document) that is
    neither blank nor a comment, the header line itself at the least: the
    blank and comment lines after it are not owned.  The content end of
    the synthetic root header is the line before the first header (or the
    last line of the document), with nothing trimmed. *)
Theorem index_headers_content_end (lines : list string) (k : nat) (h : Header) :
  index_headers lines !! k = Some h →
  let ns := next_start lines (index_headers lines) k in
  (kind h = root → end_line h = ns - 1)
  ∧ (kind h ≠ root →
     start_line h <= end_line h <= ns - 1
     ∧ _is_comment_or_blank (line_at lines (end_line h)) = false
     ∧ ∀ j, end_line h < j <= ns - 1 →
            _is_comment_or_blank (line_at lines j) = true).
Proof.
  intros Hk ns.
  destruct (index_headers_lookup _ _ _ Hk) as (h0 & Hk0 & ->).
  fold ns. unfold content_end. simpl.
  split.
  - by intros ->.
  - intros Hkind.
    destruct k as [|k]; [by injection Hk0 as <-|]. simpl in Hk0.
    destruct (scan_headers_spec _ _ _ _ _ Hk0)
      as (_ & Hr & (line & Hline & Hnb) & _ & Hsort).
    assert (start_line h0 < ns) as Hns.
    { unfold ns, next_start, index_headers.
      rewrite compute_end_lines_lookup. simpl.
      destruct (scan_headers lines 0 ∅ !! S k) as [h'|] eqn:Hk'; simpl.
      - eapply Hsort; [|done]. lia.
      - lia. }
    destruct (kind h0) eqn:Hkd; [done|..];
      rewrite walk_back_trim by lia;
      destruct (trim_back_spec lines (start_line h0)
                  (Z.to_nat (ns - 1 - start_line h0))) as (Hb & Hall & Hend);
      (split; [lia|]); (split; [|intros j Hj; apply Hall; lia]);
      (destruct Hend as [->| ->]; [|done]);
      unfold line_at; rewrite Z.sub_0_r in Hline; by rewrite Hline.
Qed.

Lemma index_headers_content_end_witness :
  index_headers doc_blank_before_table !! 1%nat = Some header_t
  ∧ _is_comment_or_blank (line_at doc_blank_before_table (end_line header_t))
    = false.
Proof.
  assert (index_headers doc_blank_before_table !! 1%nat = Some header_t) as Hk
    by (vm_compute; reflexivity).
  split; [exact Hk|].
  destruct (index_headers_content_end doc_blank_before_table 1 header_t Hk)
    as [_ H].
  destruct H as (_ & H & _); [discriminate|exact H].
Defined.

(** C6, as stated, fails: the end line of the root header is the line
    before the first header, blank or not. *)
Lemma index_headers_root_end_not_trimmed :
  ¬ (∀ lines k h,
       index_headers lines !! k = Some h →
       end_line h = trimmed_end lines h (next_start lines (index_headers lines) k)).
Proof.
  intros H.
  specialize (H doc_blank_before_table 0%nat _ eq_refl).
  vm_compute in H. discriminate H.
Qed.

(** ** The invariant of the header list *)

Lemma occurrences_ext (p : list string) (l1 l2 : list Header) :
  Forall2 (λ a b, kind a = kind b ∧ path a = path b) l1 l2 →
  occurrences p l1 = occurrences p l2.
Proof.
  unfold occurrences. induction 1 as [|a b l1 l2 [Hk Hp] _ IH]; [done|].
  rewrite !filter_cons.
  destruct (decide (kind a = aot ∧ path a = p)) as [Ha|Ha],
           (decide (kind b = aot ∧ path b = p)) as [Hb|Hb];
    simpl; rewrite ?IH; try done; exfalso; rewrite Hk, Hp in *; tauto.
Qed.

Lemma compute_end_lines_same (lines : list string) (hs : list Header) :
  Forall2 (λ a b, kind a = kind b ∧ path a = path b)
    (compute_end_lines lines hs) hs.
Proof.
  induction hs as [|h rest IH]; simpl; [constructor|].
  constructor; [by destruct (kind h) eqn:E|exact IH].
Qed.

Lemma occurrences_take_lt (p : list string) (hs : list Header) (i j : nat)
    (hi : Header) :
  hs !! i = Some hi → kind hi = aot → path hi = p → (i < j)%nat →
  (occurrences p (take i hs) < occurrences p (take j hs))%nat.
Proof.
  intros Hi Hk Hp Hij. unfold occurrences.
  replace j with (i + S (j - S i))%nat by lia.
  rewrite <- take_take_drop, filter_app, length_app.
  rewrite (drop_S _ _ _ Hi). simpl.
  rewrite filter_cons_True by done. simpl. lia.
Qed.

(** C7.  The header list is ordered by start line; an array-of-tables
    header carries the number of earlier array-of-tables headers with its
    dotted path, so the indices of one path count up from 0 and increase
    strictly in document order; the list starts with the one synthetic root
    header, which ends just before the first real header, or spans the
    whole document if there is none. *)
Theorem index_headers_invariant (lines : list string) :
  (∀ i j hi hj,
      (i < j)%nat → index_headers lines !! i = Some hi →
      index_headers lines !! j = Some hj → start_line hi < start_line hj)
  ∧ (∀ k h,
      index_headers lines !! k = Some h → kind h = aot →
      aot_index h = Some (occurrences (path h) (take k (index_headers lines))))
  ∧ (∀ i j hi hj,
      (i < j)%nat → index_headers lines !! i = Some hi →
      index_headers lines !! j = Some hj →
      kind hi = aot → kind hj = aot → path hi = path hj →
      ∃ a b, aot_index hi = Some a ∧ aot_index hj = Some b ∧ (a < b)%nat)
  ∧ (∃ r rest,
      index_headers lines = r :: rest
      ∧ kind r = root ∧ start_line r = -1
      ∧ Forall (λ h, kind h ≠ root ∧ 0 <= start_line h < Z.of_nat (length lines))
          rest
      ∧ end_line r = match rest with
                     | h :: _ => start_line h - 1
                     | [] => Z.of_nat (length lines) - 1
                     end).
Proof.
  assert (∀ k h,
      index_headers lines !! k = Some h → kind h = aot →
      aot_index h = Some (occurrences (path h) (take k (index_headers lines))))
    as Hocc.
  { intros k h Hk Ha.
    destruct (index_headers_lookup _ _ _ Hk) as (h0 & Hk0 & ->). simpl in *.
    destruct k as [|k]; [by injection Hk0 as <-|]. simpl in Hk0.
    destruct (scan_headers_spec _ _ _ _ _ Hk0) as (_ & _ & _ & Hidx & _).
    rewrite (Hidx Ha), lookup_empty. apply (f_equal Some).
    unfold index_headers.
    rewrite (occurrences_ext (path h0)
               (take (S k) (compute_end_lines lines (root_header :: scan_headers lines 0 ∅)))
               (take (S k) (root_header :: scan_headers lines 0 ∅)))
      by (apply Forall2_take, compute_end_lines_same).
    unfold occurrences. simpl. by rewrite filter_cons_False by (by intros [? _]). }
  split; [|split; [done|split]].
  - intros i j hi hj Hij Hi Hj.
    destruct (index_headers_lookup _ _ _ Hi) as (h0 & Hi0 & ->).
    destruct (index_headers_lookup _ _ _ Hj) as (h1 & Hj0 & ->). simpl.
    destruct j as [|j]; [lia|]. simpl in Hj0.
    destruct (scan_headers_spec _ _ _ _ _ Hj0) as (_ & Hr & _).
    destruct i as [|i]; [injection Hi0 as <-; simpl; lia|]. simpl in Hi0.
    destruct (scan_headers_spec _ _ _ _ _ Hi0) as (_ & _ & _ & _ & Hsort).
    eapply Hsort; [|done]. lia.
  - intros i j hi hj Hij Hi Hj Hki Hkj Hp.
    exists (occurrences (path hi) (take i (index_headers lines))),
           (occurrences (path hj) (take j (index_headers lines))).
    split; [by apply Hocc|]. split; [by apply Hocc|].
    rewrite <- Hp. by eapply occurrences_take_lt.
  - unfold index_headers. simpl.
    eexists _, _. split; [done|]. simpl.
    split; [done|]. split; [done|]. split.
    + apply Forall_lookup_2. intros k h Hk.
      rewrite compute_end_lines_lookup in Hk.
      destruct (scan_headers lines 0 ∅ !! k) as [h0|] eqn:Hk0; [|done].
      injection Hk as <-. simpl.
      destruct (scan_headers_spec _ _ _ _ _ Hk0) as (Hkd & Hr & _). split; [done|lia].
    + destruct (scan_headers lines 0 ∅) as [|h rest]; simpl; [done|].
      by destruct (kind h).
Qed.

(** ** The value-boundary scanner: where a value ends *)

Lemma finishes_continues_excl (st0 : ScanState) (texts : list string) (n : nat) :
  finishes_at st0 texts n → continues_at st0 texts n → False.
Proof.
  intros (st & t & Hc & Ht & Hf) (st' & t' & Hc' & Ht' & Hf'). congruence.
Qed.

Lemma finishes_at_S (st st' : ScanState) (t : string) (rest : list string) (n : nat) :
  scan_text st 0 t = Some st' →
  finishes_at st' rest n → finishes_at st (t :: rest) (S n).
Proof.
  intros Hs (s & x & Hc & Hx & Hf). exists s, x. simpl. by rewrite Hs.
Qed.

Lemma continues_at_S (st st' : ScanState) (t : string) (rest : list string) (n : nat) :
  scan_text st 0 t = Some st' →
  continues_at st' rest n → continues_at st (t :: rest) (S n).
Proof.
  intros Hs (s & x & Hc & Hx & Hf). exists s, x. simpl. by rewrite Hs.
Qed.

(** The outer loop returns the first line that finishes the value, and
    [last] when no line does. *)
Lemma value_lines_spec (texts : list string) :
  ∀ (st : ScanState) (i last : Z),
    (∃ n, finishes_at st texts n
          ∧ (∀ m, (m < n)%nat → continues_at st texts m)
          ∧ value_lines st i texts last = i + Z.of_nat n)
    ∨ ((∀ m, (m < length texts)%nat → continues_at st texts m)
       ∧ value_lines st i texts last = last).
Proof.
  induction texts as [|t rest IH]; intros st i last.
  - right. split; [simpl; intros; lia|done].
  - cbn [value_lines].
    destruct (scan_text st 0 t) as [st'|] eqn:Hs.
    + destruct (value_ends st') eqn:He.
      * left. exists 0%nat. split; [|split; [intros; lia|lia]].
        exists st, t. unfold finishes. by rewrite Hs.
      * assert (continues_at st (t :: rest) 0) as H0.
        { exists st, t. unfold finishes. by rewrite Hs. }
        destruct (IH st' (i + 1) last) as [(n & Hf & Hc & Hr)|[Hc Hr]].
        -- left. exists (S n). split; [by eapply finishes_at_S|].
           split; [|lia].
           intros [|m] Hm; [done|]. eapply continues_at_S; [done|].
           apply Hc. lia.
        -- right. split; [|done].
           intros [|m] Hm; [done|]. eapply continues_at_S; [done|].
           apply Hc. simpl in Hm. lia.
    + left. exists 0%nat. split; [|split; [intros; lia|lia]].
      exists st, t. unfold finishes. by rewrite Hs.
Qed.

Lemma _value_block_end_unfold (lines : list string) (start_line start_col : nat) :
  (start_line < length lines)%nat →
  _value_block_end lines start_line start_col
  = value_lines scan_init (Z.of_nat start_line)
      (value_texts lines start_line start_col) (Z.of_nat (length lines) - 1)
  ∧ length (value_texts lines start_line start_col)
    = (length lines - start_line)%nat.
Proof.
  intros Hlt. unfold _value_block_end, value_texts.
  pose proof (length_drop lines start_line) as Hlen.
  destruct (drop start_line lines) as [|line rest]; simpl in *; [lia|].
  split; [done|lia].
Qed.

(** The end-of-line test holds outside any string with both depths zero. *)
Lemma value_ends_spec (st : ScanState) :
  value_ends st = true
  ↔ depth_square st = 0%nat ∧ depth_curly st = 0%nat
    ∧ in_dq st = false ∧ in_sq st = false
    ∧ in_triple_dq st = false ∧ in_triple_sq st = false.
Proof.
  unfold value_ends. destruct st as [ds dc a b c d]; simpl.
  rewrite !andb_true_iff, !bool_decide_eq_true, negb_true_iff.
  destruct a, b, c, d; simpl; intuition congruence.
Qed.

(** The scan stops inside a line exactly at a [#] met outside any string
    with both depths zero. *)
Lemma scan_char_comment (st : ScanState) (ch : ascii) (r : string) :
  scan_char st ch (String ch r) = None
  ↔ ch = "#"%char ∧ value_ends st = true.
Proof.
  rewrite value_ends_spec. split.
  - unfold scan_char. destruct st as [ds dc a b c d]; simpl.
    destruct a, b, c, d; simpl;
      repeat match goal with
             | |- context [if ?x then _ else _] => destruct x eqn:?
             end;
      try discriminate.
    intros _.
    match goal with
    | H : (_ && _ && _)%bool = true |- _ =>
        rewrite !andb_true_iff, !bool_decide_eq_true in H;
        destruct H as [[H1 H2] H3]
    end.
    apply Ascii.eqb_eq in H1. done.
  - intros (-> & Hs & Hc & Hd & Hq & Htd & Htq).
    destruct st as [ds dc a b c d]; simpl in *. subst. reflexivity.
Qed.

(** ** The scanner and the specification's state machine *)

Lemma triple_dq_eqb (c : ascii) (r : string) :
  String.eqb (Py.take 3 (String c r)) TRIPLE_DQ
  = match r with
    | String c2 (String c3 _) => is3 Py.DQ c c2 c3
    | _ => false
    end.
Proof.
  unfold TRIPLE_DQ, Py.char, is3.
  destruct r as [|c2 [|c3 r3]]; cbn.
  - by destruct (Ascii.eqb c Py.DQ).
  - destruct (Ascii.eqb c Py.DQ); [|done]. by destruct (Ascii.eqb c2 Py.DQ).
  - destruct (Ascii.eqb c Py.DQ); [|done].
    destruct (Ascii.eqb c2 Py.DQ); [|done].
    destruct (Ascii.eqb c3 Py.DQ); [|done]. by destruct r3.
Qed.

Lemma triple_sq_eqb (c : ascii) (r : string) :
  String.eqb (Py.take 3 (String c r)) TRIPLE_SQ
  = match r with
    | String c2 (String c3 _) => is3 Py.SQ c c2 c3
    | _ => false
    end.
Proof.
  change TRIPLE_SQ with (String Py.SQ (String Py.SQ (String Py.SQ EmptyString))).
  unfold is3.
  destruct r as [|c2 [|c3 r3]]; cbn.
  - by destruct (Ascii.eqb c Py.SQ).
  - destruct (Ascii.eqb c Py.SQ); [|done]. by destruct (Ascii.eqb c2 Py.SQ).
  - destruct (Ascii.eqb c Py.SQ); [|done].
    destruct (Ascii.eqb c2 Py.SQ); [|done].
    destruct (Ascii.eqb c3 Py.SQ); [|done]. by destruct r3.
Qed.

(** From Normal, past the test for a triple delimiter, the scanner's turn
    is the specification's step on one character. *)
Lemma scan_char_normal (s : SpecState) (c : ascii) (nxt3 : string) :
  mode s = Normal →
  String.eqb nxt3 TRIPLE_DQ = false →
  String.eqb nxt3 TRIPLE_SQ = false →
  scan_char (scan_state_of s) c nxt3
  = match normal_char s c with
    | None => None
    | Some s' => Some (scan_state_of s', 0%nat)
    end.
Proof.
  destruct s as [m sq cu]. simpl. intros -> Hd Hs.
  unfold scan_char, normal_char, scan_state_of. simpl. rewrite Hd, Hs.
  repeat match goal with
         | |- context [if Ascii.eqb c ?x then _ else _] =>
             destruct (Ascii.eqb c x); [reflexivity|]
         end.
  destruct (Ascii.eqb c "#"); [|reflexivity].
  destruct sq, cu; reflexivity.
Qed.

(** The scanner's inner loop over a line is the specification's state
    machine over it. *)
Lemma scan_text_spec_line (n : nat) :
  ∀ (text : string) (s : SpecState),
    (String.length text ≤ n)%nat →
    scan_text (scan_state_of s) 0 text
    = match spec_line s text with
      | CommentBegins => None
      | LineRead s' => Some (scan_state_of s')
      end.
Proof.
  induction n as [|n IH]; intros text s Hlen.
  { destruct text; [reflexivity|simpl in Hlen; lia]. }
  destruct text as [|c r]; [reflexivity|].
  simpl in Hlen.
  assert (∀ s', scan_text (scan_state_of s') 0 r
                = match spec_line s' r with
                  | CommentBegins => None
                  | LineRead s'' => Some (scan_state_of s'')
                  end) as IHr.
  { intros s'. apply IH. lia. }
  assert (∀ c2 c3 r3 s', r = String c2 (String c3 r3) →
            scan_text (scan_state_of s') 0 r3
            = match spec_line s' r3 with
              | CommentBegins => None
              | LineRead s'' => Some (scan_state_of s'')
              end) as IH3.
  { intros c2 c3 r3 s' ->. apply IH. simpl in Hlen. lia. }
  assert (∀ c2 r2 s', r = String c2 r2 →
            scan_text (scan_state_of s') 0 r2
            = match spec_line s' r2 with
              | CommentBegins => None
              | LineRead s'' => Some (scan_state_of s'')
              end) as IH2.
  { intros c2 r2 s' ->. apply IH. simpl in Hlen. lia. }
  cbn [scan_text spec_line].
  destruct (mode s) eqn:Hm.
  - (* Normal *)
    destruct (String.eqb (Py.take 3 (String c r)) TRIPLE_DQ) eqn:Hd.
    + unfold scan_char at 1. destruct s as [m sq cu]; simpl in Hm; subst m.
      cbn [scan_state_of mode in_triple_dq in_triple_sq in_dq in_sq].
      rewrite Hd. rewrite triple_dq_eqb in Hd.
      destruct r as [|c2 [|c3 r3]]; try discriminate.
      rewrite Hd. cbn [scan_text]. by rewrite <- (IH3 c2 c3 r3).
    + destruct (String.eqb (Py.take 3 (String c r)) TRIPLE_SQ) eqn:Hq.
      * unfold scan_char at 1. destruct s as [m sq cu]; simpl in Hm; subst m.
        cbn [scan_state_of mode in_triple_dq in_triple_sq in_dq in_sq].
        rewrite Hd, Hq. rewrite triple_dq_eqb in Hd. rewrite triple_sq_eqb in Hq.
        destruct r as [|c2 [|c3 r3]]; try discriminate.
        rewrite Hd, Hq. cbn [scan_text]. by rewrite <- (IH3 c2 c3 r3).
      * rewrite (scan_char_normal s c _ Hm Hd Hq).
        rewrite triple_dq_eqb in Hd. rewrite triple_sq_eqb in Hq.
        destruct r as [|c2 [|c3 r3]].
        -- destruct (normal_char s c); [apply IHr|done].
        -- destruct (normal_char s c); [apply IHr|done].
        -- rewrite Hd, Hq. destruct (normal_char s c); [apply IHr|done].
  - (* InDoubleQuoted *)
    destruct s as [m sq cu]; simpl in Hm; subst m.
    unfold scan_char at 1.
    cbn [scan_state_of mode in_triple_dq in_triple_sq in_dq in_sq].
    destruct (Ascii.eqb c Py.BSL).
    + destruct r as [|c2 r2]; [reflexivity|]. cbn [scan_text].
      by rewrite <- (IH2 c2 r2).
    + destruct (Ascii.eqb c Py.DQ); by rewrite <- IHr.
  - (* InSingleQuoted *)
    destruct s as [m sq cu]; simpl in Hm; subst m.
    unfold scan_char at 1.
    cbn [scan_state_of mode in_triple_dq in_triple_sq in_dq in_sq].
    destruct (Ascii.eqb c Py.SQ); by rewrite <- IHr.
  - (* InTripleDoubleQuoted *)
    destruct s as [m sq cu]; simpl in Hm; subst m.
    unfold scan_char at 1.
    cbn [scan_state_of mode in_triple_dq in_triple_sq in_dq in_sq].
    rewrite triple_dq_eqb.
    destruct r as [|c2 [|c3 r3]]; try by rewrite <- IHr.
    destruct (is3 Py.DQ c c2 c3).
    + cbn [scan_text]. by rewrite <- (IH3 c2 c3 r3).
    + by rewrite <- IHr.
  - (* InTripleSingleQuoted *)
    destruct s as [m sq cu]; simpl in Hm; subst m.
    unfold scan_char at 1.
    cbn [scan_state_of mode in_triple_dq in_triple_sq in_dq in_sq].
    rewrite triple_sq_eqb.
    destruct r as [|c2 [|c3 r3]]; try by rewrite <- IHr.
    destruct (is3 Py.SQ c c2 c3).
    + cbn [scan_text]. by rewrite <- (IH3 c2 c3 r3).
    + by rewrite <- IHr.
Qed.

Lemma value_ends_spec_ends (s : SpecState) :
  value_ends (scan_state_of s) = spec_ends s.
Proof. destruct s as [[] [|sq] [|cu]]; reflexivity. Qed.

Lemma finishes_spec_finishes (s : SpecState) (text : string) :
  finishes (scan_state_of s) text = spec_finishes s text.
Proof.
  unfold finishes, spec_finishes.
  rewrite (scan_text_spec_line (String.length text)) by done.
  destruct (spec_line s text); [done|apply value_ends_spec_ends].
Qed.

Lemma carried_spec_carried (texts : list string) :
  ∀ s, carried (scan_state_of s) texts = scan_state_of <$> spec_carried s texts.
Proof.
  induction texts as [|t rest IH]; intros s; [reflexivity|].
  cbn [carried spec_carried].
  rewrite (scan_text_spec_line (String.length t)) by done.
  destruct (spec_line s t); [done|apply IH].
Qed.

Lemma spec_finishes_at_scan (s0 : SpecState) (texts : list string) (n : nat) :
  spec_finishes_at s0 texts n ↔ finishes_at (scan_state_of s0) texts n.
Proof.
  split.
  - intros (s & t & Hc & Ht & Hf). exists (scan_state_of s), t.
    rewrite carried_spec_carried, Hc, finishes_spec_finishes. done.
  - intros (st & t & Hc & Ht & Hf). rewrite carried_spec_carried in Hc.
    destruct (spec_carried s0 (take n texts)) as [s|] eqn:Hs; [|done].
    injection Hc as <-. rewrite finishes_spec_finishes in Hf.
    by exists s, t.
Qed.

Lemma spec_continues_at_scan (s0 : SpecState) (texts : list string) (n : nat) :
  spec_continues_at s0 texts n ↔ continues_at (scan_state_of s0) texts n.
Proof.
  split.
  - intros (s & t & Hc & Ht & Hf). exists (scan_state_of s), t.
    rewrite carried_spec_carried, Hc, finishes_spec_finishes. done.
  - intros (st & t & Hc & Ht & Hf). rewrite carried_spec_carried in Hc.
    destruct (spec_carried s0 (take n texts)) as [s|] eqn:Hs; [|done].
    injection Hc as <-. rewrite finishes_spec_finishes in Hf.
    by exists s, t.
Qed.

(** A line leaves the value open exactly when it is read to its end and a
    string is open or a depth is positive there. *)
Lemma spec_finishes_false (s : SpecState) (text : string) :
  spec_finishes s text = false
  ↔ ∃ s', spec_line s text = LineRead s'
          ∧ (mode s' ≠ Normal ∨ (0 < squareDepth s')%nat ∨ (0 < curlyDepth s')%nat).
Proof.
  unfold spec_finishes, spec_ends. split.
  - destruct (spec_line s text) as [|s']; [done|]. intros H. exists s'.
    split; [done|]. destruct s' as [[] [|sq] [|cu]]; simpl in *;
      try discriminate; try (by left); right; (by left; lia) || (by right; lia).
  - intros (s' & -> & H). destruct s' as [[] [|sq] [|cu]]; simpl in *;
      try reflexivity. destruct H as [H|[H|H]]; [done|lia|lia].
Qed.

(** C5.  The scanner reports the value as ending on the first line that
    ends it, where the lines are read by the specification's state machine
    ([spec_line], started in Normal with both depths zero at the start
    column): a line ends the value when a [#] is met on it in Normal with
    both depths zero, or when its end is reached in Normal with both depths
    zero.  Every line before the reported one is read to its end with a
    string state open or a depth positive there ([spec_finishes_false]),
    and the scan goes on to the next line.  The scanner's own loop is
    compared with the state machine in [scan_text_spec_line]. *)
Theorem _value_block_end_first (lines : list string) (start_line start_col : nat) :
  (start_line < length lines)%nat →
  let texts := value_texts lines start_line start_col in
  let r := _value_block_end lines start_line start_col in
  (∀ n, spec_finishes_at spec_init texts n →
        (∀ m, (m < n)%nat → spec_continues_at spec_init texts m) →
        r = Z.of_nat start_line + Z.of_nat n)
  ∧ (∀ m, Z.of_nat start_line + Z.of_nat m < r →
          spec_continues_at spec_init texts m)
  ∧ ((∃ n, spec_finishes_at spec_init texts n
           ∧ r = Z.of_nat start_line + Z.of_nat n)
     ∨ (∀ m, (m < length texts)%nat → spec_continues_at spec_init texts m)).
Proof.
  intros Hlt texts r.
  destruct (_value_block_end_unfold lines start_line start_col Hlt) as [Hr Hlen].
  fold texts in Hr, Hlen. fold r in Hr.
  change scan_init with (scan_state_of spec_init) in Hr.
  destruct (value_lines_spec texts (scan_state_of spec_init)
              (Z.of_nat start_line) (Z.of_nat (length lines) - 1))
    as [(n & Hf & Hc & Hv)|[Hc Hv]].
  - split; [|split].
    + intros n' Hf' Hc'. apply spec_finishes_at_scan in Hf'.
      destruct (Nat.lt_trichotomy n n') as [Hlt'|[->|Hgt]].
      * apply Hc', spec_continues_at_scan in Hlt'.
        destruct (finishes_continues_excl _ _ _ Hf Hlt').
      * lia.
      * destruct (finishes_continues_excl _ _ _ Hf' (Hc _ Hgt)).
    + intros m Hm. apply spec_continues_at_scan, Hc. lia.
    + left. exists n. split; [by apply spec_finishes_at_scan|lia].
  - split; [|split].
    + intros n' Hf' _. apply spec_finishes_at_scan in Hf'.
      assert (n' < length texts)%nat as Hn.
      { destruct Hf' as (_ & t & _ & Ht & _). by eapply lookup_lt_Some. }
      destruct (finishes_continues_excl _ _ _ Hf' (Hc _ Hn)).
    + intros m Hm. apply spec_continues_at_scan, Hc. lia.
    + right. intros m Hm. by apply spec_continues_at_scan, Hc.
Qed.

Lemma _value_block_end_first_witness :
  _value_block_end doc_triple_quoted 0 3 = 2.
Proof.
  destruct (_value_block_end_first doc_triple_quoted 0 3) as [H _].
  - simpl. lia.
  - apply (H 2%nat).
    + eexists _, _. repeat split; reflexivity.
    + intros [|[|m]] Hm; [| |lia]; eexists _, _; repeat split; reflexivity.
Defined.

(** C10.  On a document with a line [start_line], the scanner returns a
    line index between [start_line] and the last line, whatever the start
    column; when no line from [start_line] on finishes the value (the
    document ends inside a string or with a positive depth), it returns the
    index of the last line. *)
Theorem _value_block_end_in_range (lines : list string) (start_line start_col : nat) :
  (start_line < length lines)%nat →
  let texts := value_texts lines start_line start_col in
  let r := _value_block_end lines start_line start_col in
  Z.of_nat start_line <= r <= Z.of_nat (length lines) - 1
  ∧ ((∀ m, (m < length texts)%nat → continues_at scan_init texts m) →
     r = Z.of_nat (length lines) - 1).
Proof.
  intros Hlt texts r.
  destruct (_value_block_end_unfold lines start_line start_col Hlt) as [Hr Hlen].
  fold texts in Hr, Hlen. fold r in Hr.
  destruct (value_lines_spec texts scan_init (Z.of_nat start_line)
              (Z.of_nat (length lines) - 1)) as [(n & Hf & Hc & Hv)|[Hc Hv]].
  - assert (n < length texts)%nat as Hn.
    { destruct Hf as (_ & t & _ & Ht & _). by eapply lookup_lt_Some. }
    split; [lia|].
    intros Hall. destruct (finishes_continues_excl _ _ _ Hf (Hall _ Hn)).
  - split; [lia|]. intros _. lia.
Qed.

Lemma _value_block_end_in_range_witness :
  _value_block_end doc_open_array 0 3 = 1.
Proof.
  destruct (_value_block_end_in_range doc_open_array 0 3) as [_ H].
  - simpl. lia.
  - apply H. intros [|[|m]] Hm; [| |simpl in Hm; lia];
      eexists _, _; repeat split; reflexivity.
Defined.

(** The result lies between the start line and the last line. *)
Lemma _value_block_end_bounds (lines : list string) (start_line start_col : nat) :
  (start_line < length lines)%nat →
  Z.of_nat start_line <= _value_block_end lines start_line start_col
                      <= Z.of_nat (length lines) - 1.
Proof.
  intros Hlt.
  destruct (_value_block_end_unfold lines start_line start_col Hlt) as [-> Hlen].
  destruct (value_lines_spec (value_texts lines start_line start_col) scan_init
              (Z.of_nat start_line) (Z.of_nat (length lines) - 1))
    as [(n & (_ & t & _ & Ht & _) & _ & ->)|[_ ->]]; [|lia].
  apply lookup_lt_Some in Ht. lia.
Qed.

(** ** The assignment locator *)

Lemma assignment_match_inv (lines : list string) (header : Header)
    (full_path : list PathSegment) (i : Z) (line : string) (m : Match) :
  assignment_match lines header full_path i line = Some m →
  ∃ eq_pos ksegs,
    _find_equals_outside_quotes line = Some eq_pos
    ∧ ksegs = map _unquote_key (_split_path_tokens (Py.strip (Py.take eq_pos line)))
    ∧ _segments_equal (id_segments header ++ map seg ksegs) full_path = true
    ∧ m = (i, _value_block_end lines (Z.to_nat i) (S eq_pos), ksegs).
Proof.
  unfold assignment_match. intros H.
  destruct (_ || _ || _); [done|].
  destruct (_find_equals_outside_quotes line) as [eq_pos|]; [|done].
  exists eq_pos.
  unfold _parse_assignment_key_segments in H.
  destruct (Py.strip (Py.take eq_pos line)) as [|c r] eqn:Hl; [done|].
  destruct (Py.startswith (String c r) "#"); [done|].
  destruct (map _unquote_key (_split_path_tokens (String c r))) as [|k ks] eqn:Hks;
    [done|].
  destruct (_segments_equal _ full_path) eqn:He; [|done].
  injection H as <-. eexists. by rewrite He.
Qed.

Section Collect.
Variables (lines : list string) (header : Header) (full_path : list PathSegment)
          (end_ : Z).

Lemma collect_matches_sound (rest : list string) :
  ∀ (i : Z) (m : Match),
    m ∈ collect_matches lines header full_path end_ i rest →
    ∃ (k : nat) line,
      rest !! k = Some line ∧ i + Z.of_nat k <= end_
      ∧ assignment_match lines header full_path (i + Z.of_nat k) line = Some m.
Proof.
  induction rest as [|line rest IH]; intros i m Hm; simpl in Hm.
  - by apply elem_of_nil in Hm.
  - destruct (end_ <? i) eqn:Hend; [by apply elem_of_nil in Hm|].
    apply Z.ltb_ge in Hend.
    assert (∀ m, m ∈ collect_matches lines header full_path end_ (i + 1) rest →
                 ∃ (k : nat) line0,
                   (line :: rest) !! k = Some line0 ∧ i + Z.of_nat k <= end_
                   ∧ assignment_match lines header full_path (i + Z.of_nat k) line0
                     = Some m) as Htail.
    { intros m0 Hm0. destruct (IH _ _ Hm0) as (k & l0 & Hk & Hle & Ha).
      exists (S k), l0. split; [done|]. split; [lia|].
      by replace (i + Z.of_nat (S k)) with (i + 1 + Z.of_nat k) by lia. }
    destruct (assignment_match lines header full_path i line) as [m0|] eqn:Ha;
      [|by apply Htail].
    apply elem_of_cons in Hm as [->|Hm]; [|by apply Htail].
    exists 0%nat, line. split; [done|]. split; [lia|].
    by rewrite Z.add_0_r.
Qed.



End Collect.

(** The span the locator returns lies inside the document. *)
Lemma find_assignment_block_span (lines : list string) (headers : list Header)
    (full_path : list PathSegment) (start end_ : Z) (ksegs : list string) :
  find_assignment_block_by_full_path lines headers full_path
  = Ok (start, end_, ksegs) →
  0 <= start <= end_ ∧ end_ < Z.of_nat (length lines).
Proof.
  unfold find_assignment_block_by_full_path.
  destruct full_path as [|s0 fp]; [done|].
  destruct (find_section_block headers _) as [[[h st] en]|]; [|done].
  destruct (collect_matches _ _ _ _ _ _) as [|m [|m' ms]] eqn:Hc.
  - destruct (last _) as [t|]; [|done].
    destruct (index t); [done|]. by destruct (bool_decide _).
  - intros [= ->].
    assert ((start, end_, ksegs) ∈ collect_matches lines h (s0 :: fp) en
              (Z.max st 0) (drop (Z.to_nat (Z.max st 0)) lines)) as Hin
      by (rewrite Hc; apply list_elem_of_here).
    destruct (collect_matches_sound _ _ _ _ _ _ _ Hin) as (k & line & Hk & _ & Ha).
    destruct (assignment_match_inv _ _ _ _ _ _ Ha) as (eq_pos & ks & _ & _ & _ & Hm).
    rewrite lookup_drop in Hk. apply lookup_lt_Some in Hk.
    injection Hm as -> -> _.
    pose proof (_value_block_end_bounds lines (Z.to_nat (Z.max st 0 + Z.of_nat k))
                  (S eq_pos) ltac:(lia)).
    lia.
  - done.
Qed.

(** ** What the locator returns for a single match *)




(** ** Locality of [set] *)



(** ** Replacing the top comment *)

Lemma append_cons (c : ascii) (a b : string) :
  String c a +:+ b = String c (a +:+ b).
Proof. reflexivity. Qed.

Lemma append_nil_r (s : string) : s +:+ "" = s.
Proof. induction s as [|c s IH]; [done|]. by rewrite append_cons, IH. Qed.

Lemma append_assoc (a b c : string) : (a +:+ b) +:+ c = a +:+ (b +:+ c).
Proof. induction a as [|x a IH]; [done|]. by rewrite !append_cons, IH. Qed.

Lemma join0_cons (x : string) (xs : list string) :
  Py.join0 (x :: xs) = x +:+ Py.join0 xs.
Proof.
  unfold Py.join0. simpl. destruct xs; [by rewrite append_nil_r|done].
Qed.

Lemma join0_app (xs ys : list string) :
  Py.join0 (xs ++ ys) = Py.join0 xs +:+ Py.join0 ys.
Proof.
  induction xs as [|x xs IH]; [done|].
  change ((x :: xs) ++ ys) with (x :: (xs ++ ys)).
  by rewrite !join0_cons, IH, append_assoc.
Qed.

(** Splitting with the line ends kept loses nothing. *)
Lemma splitlines_from_keepends (n : nat) :
  ∀ s cur, (String.length s <= n)%nat →
           Py.join0 (Py.splitlines_from true cur s) = cur +:+ s.
Proof.
  induction n as [|n IH]; intros s cur Hn.
  - destruct s; [|simpl in Hn; lia].
    simpl. destruct cur; [done|]. by rewrite join0_cons, !append_nil_r.
  - destruct s as [|c r].
    { simpl. destruct cur; [done|]. by rewrite join0_cons, !append_nil_r. }
    simpl in Hn. cbn [Py.splitlines_from].
    destruct (Ascii.eqb c Py.CR).
    + destruct r as [|d r'].
      * rewrite join0_cons, IH, append_assoc by (simpl; lia). done.
      * simpl in Hn. destruct (Ascii.eqb d Py.LF).
        -- rewrite join0_cons, IH, append_assoc by lia. done.
        -- rewrite join0_cons, IH, append_assoc by (simpl; lia). done.
    + destruct (Py.islinebreak c).
      * rewrite join0_cons, IH, append_assoc by lia. done.
      * rewrite IH, append_assoc by lia. done.
Qed.

Lemma splitlines_keepends (text : string) :
  Py.join0 (Py.splitlines true text) = text.
Proof. by apply (splitlines_from_keepends (String.length text)). Qed.

Lemma top_comment_end_spec (lines : list string) :
  Forall (λ l, _is_comment_or_blank l = true) (take (top_comment_end lines) lines)
  ∧ ∀ l, head (drop (top_comment_end lines) lines) = Some l →
         _is_comment_or_blank l = false.
Proof.
  induction lines as [|line rest [IH1 IH2]]; simpl.
  - split; [constructor|done].
  - assert ((match Py.strip line with "" => true | _ => false end
             || Py.startswith (Py.strip line) "#")
            = _is_comment_or_blank line) as ->.
    { unfold _is_comment_or_blank. by destruct (Py.strip line). }
    destruct (_is_comment_or_blank line) eqn:Hb; simpl.
    + split; [by constructor|done].
    + split; [constructor|]. by intros l [= <-].
Qed.

(** C9.  The text splits into its maximal leading run of blank or comment
    lines and the remaining lines; the result is one line per line of the
    replacement text (a blank one rendered as a bare [#], any other as [# ]
    followed by the line without trailing white space), then one empty
    line, then the remaining lines of the original text, unchanged. *)
Theorem replace_top_comment_block_spec (text new_text : string) :
  ∃ run rest new_lines,
    Py.splitlines true text = run ++ rest
    ∧ text = Py.join0 run +:+ Py.join0 rest
    ∧ Forall (λ l, _is_comment_or_blank l = true) run
    ∧ (∀ l, head rest = Some l → _is_comment_or_blank l = false)
    ∧ Forall2 (λ raw out,
                 match Py.strip raw with
                 | "" => out = "#" +:+ Py.char Py.LF
                 | _ => out = "# " +:+ Py.rstrip raw +:+ Py.char Py.LF
                 end)
        (Py.splitlines false new_text) new_lines
    ∧ replace_top_comment_block text (Some new_text)
      = Py.join0 new_lines +:+ Py.char Py.LF +:+ Py.join0 rest.
Proof.
  set (lines := Py.splitlines true text).
  destruct (top_comment_end_spec lines) as [Hrun Hrest].
  exists (take (top_comment_end lines) lines),
         (drop (top_comment_end lines) lines),
         (map comment_line (Py.splitlines false new_text)).
  split; [by rewrite take_drop|].
  split; [rewrite <- join0_app, take_drop; symmetry; apply splitlines_keepends|].
  split; [done|]. split; [done|]. split.
  - apply Forall2_fmap_r, Forall_Forall2_diag, Forall_forall.
    intros raw _. unfold comment_line. simpl. by destruct (Py.strip raw).
  - unfold replace_top_comment_block. fold lines.
    by rewrite <- app_assoc, !join0_app.
Qed.

(** ** Fail-fast runs *)

Section DriverProperties.

Variable toml_valid : string -> bool.
Variable toml_loads_k : string -> option value.

Lemma run_ops_app (ops1 ops2 : list Op) (lines : list string) :
  run_ops toml_loads_k (ops1 ++ ops2) lines
  = match run_ops toml_loads_k ops1 lines with
    | Exit c => Exit c
    | Continue lines' => run_ops toml_loads_k ops2 lines'
    end.
Proof.
  revert lines. induction ops1 as [|op ops1 IH]; intros lines; [done|].
  simpl. destruct (run_op toml_loads_k op lines); [apply IH|done].
Qed.

Lemma run_sets_ops (specs : list string) (lines : list string) :
  run_sets toml_loads_k specs lines = run_ops toml_loads_k (map OpSet specs) lines.
Proof.
  revert lines. induction specs as [|s specs IH]; intros lines; [done|].
  simpl. destruct (parse_set toml_loads_k s); [|done].
  destruct (apply_set lines s0); [apply IH|done].
Qed.

Lemma run_del_keys_ops (pths : list string) (lines : list string) :
  run_del_keys pths lines = run_ops toml_loads_k (map OpDeleteKey pths) lines.
Proof.
  revert lines. induction pths as [|p pths IH]; intros lines; [done|].
  simpl. destruct (apply_delete_key lines _); [apply IH|done].
Qed.

Lemma run_del_secs_ops (pths : list string) (lines : list string) :
  run_del_secs pths lines = run_ops toml_loads_k (map OpDeleteSection pths) lines.
Proof.
  revert lines. induction pths as [|p pths IH]; intros lines; [done|].
  simpl. destruct (apply_delete_section lines _); [apply IH|done].
Qed.

(** The driver's three loops are one pass over the requested operations. *)
Lemma main_run_ops (args : Args) (text : string) (output_writable : bool) :
  toml_valid text = true →
  main toml_valid toml_loads_k args (Some text) output_writable
  = match run_ops toml_loads_k (requested args) (initial_lines args text) with
    | Exit c => stop c
    | Continue lines =>
        if output_writable
        then {| exit_code := 0; written := Some (Py.join0 lines) |}
        else stop 5
    end.
Proof.
  intros Hv. unfold main, validate_toml_document, requested. rewrite Hv. simpl.
  fold (initial_lines args text).
  rewrite run_ops_app, run_sets_ops.
  destruct (run_ops toml_loads_k (map OpSet (sets args)) _) as [l1|]; [|done].
  rewrite run_ops_app, run_del_keys_ops.
  destruct (run_ops toml_loads_k (map OpDeleteKey (del_keys args)) _) as [l2|]; [|done].
  by rewrite run_del_secs_ops.
Qed.

Lemma run_op_exit_code (op : Op) (lines : list string) (code : Z) :
  run_op toml_loads_k op lines = Exit code → code = 2 ∨ code = 3 ∨ code = 4.
Proof.
  unfold run_op, apply_set, apply_delete_key, apply_delete_section.
  destruct op as [spec|pth|pth].
  - destruct (parse_set _ spec); [|intros [= <-]; auto].
    destruct (find_assignment_block_by_full_path _ _ _) as [[[? ?] ?]|[]];
      intros [= <-]; auto.
  - destruct (find_assignment_block_by_full_path _ _ _) as [[[? ?] ?]|[]];
      intros [= <-]; auto.
  - destruct (find_section_block _ _) as [[[h ?] ?]|[]];
      [destruct (kind h)|..]; intros [= <-]; auto.
Qed.

(** C8.  If a requested operation fails (its path is not found or is
    ambiguous, or its payload is malformed) on the document the earlier
    operations of the run produced, the run ends there with that
    operation's exit code and writes nothing; and when a run writes its
    output, every requested operation has succeeded and the text written is
    the document they produced. *)
Theorem main_fail_fast (args : Args) (input_file : option string)
    (output_writable : bool) :
  (∀ text pre op post doc code,
      input_file = Some text → toml_valid text = true →
      requested args = pre ++ op :: post →
      run_ops toml_loads_k pre (initial_lines args text) = Continue doc →
      run_op toml_loads_k op doc = Exit code →
      main toml_valid toml_loads_k args input_file output_writable
      = {| exit_code := code; written := None |}
      ∧ (code = 2 ∨ code = 3 ∨ code = 4))
  ∧ (∀ out,
      written (main toml_valid toml_loads_k args input_file output_writable)
      = Some out →
      ∃ text doc,
        input_file = Some text
        ∧ run_ops toml_loads_k (requested args) (initial_lines args text) = Continue doc
        ∧ out = Py.join0 doc
        ∧ exit_code (main toml_valid toml_loads_k args input_file output_writable)
          = 0).
Proof.
  split.
  - intros text pre op post doc code -> Hv Hreq Hpre Hop.
    split; [|by eapply run_op_exit_code].
    rewrite main_run_ops by done.
    rewrite Hreq, run_ops_app, Hpre. simpl. by rewrite Hop.
  - intros out Hw.
    destruct input_file as [text|]; [|done].
    destruct (toml_valid text) eqn:Hv.
    + rewrite main_run_ops in Hw |- * by done.
      destruct (run_ops toml_loads_k (requested args) (initial_lines args text)) as [doc|]
        eqn:Hrun; [|done].
      destruct output_writable; [|done].
      injection Hw as <-. by exists text, doc.
    + unfold main, validate_toml_document in Hw. by rewrite Hv in Hw.
Qed.

End DriverProperties.

(** ** Strings that hold a control character *)

(** C1.  The formatter emits a form feed inside a string as it is, between
    the quotes: of the control characters it escapes backspace, tab,
    newline and carriage return only. *)
Theorem format_toml_value_form_feed :
  format_toml_value (VStr (Py.char Py.FF))
  = String Py.DQ (String Py.FF (Py.char Py.DQ))
  ∧ escape_char Py.FF = Py.char Py.FF
  ∧ escape_char Py.BS = String Py.BSL "b"
  ∧ escape_char Py.CR = String Py.BSL "r".
Proof. repeat split. Qed.

(** * Further properties *)

(** ** Facts about the string primitives *)

Lemma lstrip_head (c : ascii) (r : string) :
  Py.isspace c = false → Py.lstrip (String c r) = String c r.
Proof. intros Hc. simpl. by rewrite Hc. Qed.

Lemma rstrip_app_char (s : string) (c : ascii) :
  Py.isspace c = false → Py.rstrip (s +:+ Py.char c) = s +:+ Py.char c.
Proof.
  intros Hc. induction s as [|a s IH].
  - simpl. by rewrite Hc.
  - rewrite append_cons. cbn [Py.rstrip]. rewrite IH.
    destruct s; reflexivity.
Qed.

Lemma last_char_app_char (s : string) (c : ascii) :
  Py.last_char (s +:+ Py.char c) = Some c.
Proof.
  induction s as [|a s IH]; [done|].
  rewrite append_cons. cbn [Py.last_char]. rewrite IH.
  destruct s; reflexivity.
Qed.

Lemma removelast_app_char (s : string) (c : ascii) :
  Py.removelast (s +:+ Py.char c) = s.
Proof.
  induction s as [|a s IH]; [done|].
  rewrite append_cons. cbn [Py.removelast]. rewrite IH.
  destruct s; reflexivity.
Qed.

Lemma contains_char_app (c : ascii) (a b : string) :
  contains_char c (a +:+ b) = contains_char c a || contains_char c b.
Proof.
  induction a as [|x a IH]; [done|].
  rewrite append_cons. simpl. rewrite IH. by rewrite orb_assoc.
Qed.

(** ** Escaping and unquoting keys *)

Lemma unescape_escape_char (ch : ascii) (rest : string) :
  unescape_body (escape_char ch +:+ rest) = String ch (unescape_body rest).
Proof.
  unfold escape_char.
  repeat match goal with
         | |- context [if Ascii.eqb ch ?c then _ else _] =>
             destruct (Ascii.eqb_spec ch c) as [->|?]; [reflexivity|]
         end.
  unfold Py.char. rewrite append_cons. cbn [unescape_body].
  destruct (Ascii.eqb_spec ch Py.BSL); [done|reflexivity].
Qed.

Lemma unescape_escape_body (s : string) : unescape_body (escape_body s) = s.
Proof.
  induction s as [|ch s IH]; [done|].
  cbn [escape_body]. by rewrite unescape_escape_char, IH.
Qed.

Lemma strip_quoted (q : ascii) (body : string) :
  Py.isspace q = false →
  Py.strip (String q (body +:+ Py.char q)) = String q (body +:+ Py.char q).
Proof.
  intros Hq. unfold Py.strip. rewrite lstrip_head by done.
  rewrite <- append_cons. by rewrite rstrip_app_char.
Qed.

Lemma startswith_head (c : ascii) (r : string) :
  Py.startswith (String c r) (Py.char c) = true.
Proof.
  unfold Py.startswith, Py.char. simpl.
  destruct (ascii_dec c c); [by destruct r|congruence].
Qed.

Lemma endswith_quoted (q : ascii) (body : string) :
  Py.endswith_char (String q (body +:+ Py.char q)) q = true.
Proof.
  unfold Py.endswith_char. rewrite <- append_cons, last_char_app_char.
  apply Ascii.eqb_refl.
Qed.

Lemma unquote_escaped (s : string) : _unquote_key (_escape_string s) = s.
Proof.
  unfold _unquote_key, _escape_string.
  rewrite strip_quoted by reflexivity.
  rewrite startswith_head, endswith_quoted. cbn [andb Py.slice_1_m1].
  by rewrite removelast_app_char, unescape_escape_body.
Qed.

(** X1.  Unquoting the double-quoted, escaped form of any text gives the
    text back: [_unquote_key] inverts [_escape_string], for a text that
    holds quotes, backslashes or control characters as for any other. *)
Theorem _unquote_key_escape_string (s : string) :
  _unquote_key (_escape_string s) = s
  ∧ Py.startswith (_escape_string s) (Py.char Py.DQ) = true
  ∧ Py.endswith_char (_escape_string s) Py.DQ = true.
Proof.
  split; [apply unquote_escaped|]. unfold _escape_string.
  by rewrite startswith_head, endswith_quoted.
Qed.

Lemma bare_not_space (c : ascii) : is_bare_char c = true → Py.isspace c = false.
Proof.
  destruct c as [[] [] [] [] [] [] [] []]; vm_compute; congruence.
Qed.

Lemma bare_not_quote (c : ascii) :
  is_bare_char c = true → c ≠ Py.DQ ∧ c ≠ Py.SQ.
Proof.
  intros Hc. split; intros ->; vm_compute in Hc; discriminate.
Qed.

Lemma startswith_other (c q : ascii) (r : string) :
  c ≠ q → Py.startswith (String c r) (Py.char q) = false.
Proof.
  intros Hne. unfold Py.startswith, Py.char. simpl.
  destruct (ascii_dec q c); [congruence|done].
Qed.

Lemma endswith_char_false (s : string) (c : ascii) :
  Py.endswith_char s c = false ↔ Py.last_char s ≠ Some c.
Proof.
  unfold Py.endswith_char. destruct (Py.last_char s) as [d|]; [|done].
  destruct (Ascii.eqb_spec d c); split; congruence.
Qed.

(** A match of the bare-key pattern that does not end in a newline is made
    of bare characters only, and stripping leaves it as it is. *)
Lemma bare_rstrip (r : string) :
  ∀ c, is_bare_char c = true → bare_tail r = true →
       Py.last_char (String c r) ≠ Some Py.LF →
       Py.rstrip (String c r) = String c r.
Proof.
  induction r as [|d r IH]; intros c Hc Ht Hl.
  - simpl. by rewrite bare_not_space.
  - cbn [bare_tail] in Ht. destruct (is_bare_char d) eqn:Hd.
    + cbn [Py.rstrip]. cbn [Py.rstrip] in IH. by rewrite (IH d).
    + apply andb_true_iff in Ht as [Hlf Hr]. apply Ascii.eqb_eq in Hlf.
      destruct r; [|done]. subst d. done.
Qed.

(** X2.  A key segment that does not end in a newline survives being
    formatted and unquoted again, whether it is emitted bare or quoted. *)
Theorem _unquote_key_format_key_segment (seg : string) :
  Py.endswith_char seg Py.LF = false →
  _unquote_key (_format_key_segment seg) = seg.
Proof.
  intros Hend. unfold _format_key_segment.
  destruct (_BARE_KEY_RE_match seg) eqn:Hb; [|apply unquote_escaped].
  destruct seg as [|c r]; [done|]. simpl in Hb.
  apply andb_true_iff in Hb as [Hc Ht].
  apply endswith_char_false in Hend.
  unfold _unquote_key, Py.strip.
  rewrite lstrip_head by (by apply bare_not_space).
  rewrite bare_rstrip by done.
  destruct (bare_not_quote c Hc) as [Hdq Hsq].
  by rewrite !startswith_other.
Qed.

Lemma _unquote_key_format_key_segment_witness :
  _unquote_key (_format_key_segment "my key") = "my key"
  ∧ _unquote_key (_format_key_segment "my-key") = "my-key".
Proof.
  split; apply _unquote_key_format_key_segment; reflexivity.
Defined.

Lemma bare_tail_newline (r : string) :
  ∀ c, bare_tail r = true → Py.last_char (String c r) ≠ Some Py.LF →
       bare_tail (r +:+ Py.char Py.LF) = true.
Proof.
  induction r as [|d r IH]; intros c Ht Hl; [done|].
  rewrite append_cons. cbn [bare_tail] in Ht |- *.
  destruct (is_bare_char d) eqn:Hd; [by apply (IH d)|].
  apply andb_true_iff in Ht as [Hlf Hr]. apply Ascii.eqb_eq in Hlf.
  destruct r; [|done]. subst d. done.
Qed.

Lemma rstrip_app_space (s : string) (c : ascii) :
  Py.isspace c = true → Py.rstrip (s +:+ Py.char c) = Py.rstrip s.
Proof.
  intros Hc. induction s as [|a s IH].
  - simpl. by rewrite Hc.
  - rewrite append_cons. cbn [Py.rstrip]. by rewrite IH.
Qed.

(** X3.  The bare-key test accepts a run of bare characters followed by one
    newline: such a key is emitted unquoted with its newline, and unquoting
    what was emitted gives the key without its newline. *)
Theorem _format_key_segment_trailing_newline (seg : string) :
  _BARE_KEY_RE_match seg = true → Py.endswith_char seg Py.LF = false →
  _format_key_segment (seg +:+ Py.char Py.LF) = seg +:+ Py.char Py.LF
  ∧ _unquote_key (_format_key_segment (seg +:+ Py.char Py.LF)) = seg.
Proof.
  intros Hb Hend.
  destruct seg as [|c r]; [done|]. simpl in Hb.
  apply andb_true_iff in Hb as [Hc Ht].
  apply endswith_char_false in Hend.
  assert (_format_key_segment (String c r +:+ Py.char Py.LF)
          = String c r +:+ Py.char Py.LF) as Hfmt.
  { unfold _format_key_segment. rewrite append_cons. simpl.
    by rewrite Hc, (bare_tail_newline r c). }
  split; [done|]. rewrite Hfmt.
  unfold _unquote_key, Py.strip. rewrite append_cons.
  rewrite lstrip_head by (by apply bare_not_space).
  rewrite <- append_cons, rstrip_app_space by reflexivity.
  rewrite bare_rstrip by done.
  destruct (bare_not_quote c Hc) as [Hdq Hsq].
  by rewrite !startswith_other.
Qed.

Lemma _format_key_segment_trailing_newline_witness :
  _format_key_segment ("key" +:+ Py.char Py.LF) = "key" +:+ Py.char Py.LF
  ∧ _unquote_key (_format_key_segment ("key" +:+ Py.char Py.LF)) = "key".
Proof.
  apply (_format_key_segment_trailing_newline "key"); reflexivity.
Defined.

Lemma escape_char_plain (c ch : ascii) :
  c = Py.LF ∨ c = Py.CR ∨ c = Py.TAB ∨ c = Py.BS →
  contains_char c (escape_char ch) = false.
Proof.
  intros Hc. unfold escape_char.
  repeat match goal with
         | |- context [if Ascii.eqb ch ?x then _ else _] =>
             destruct (Ascii.eqb_spec ch x) as [->|?];
               [by destruct Hc as [->|[->|[->| ->]]]|]
         end.
  simpl. rewrite orb_false_r.
  destruct (Ascii.eqb_spec ch c) as [->|]; [|done].
  by destruct Hc as [->|[->|[->| ->]]].
Qed.

(** X4.  The quoted form of a text holds no raw newline, carriage return,
    tab or backspace: each is written as its two-character escape. *)
Theorem _escape_string_no_raw_control (s : string) (c : ascii) :
  c = Py.LF ∨ c = Py.CR ∨ c = Py.TAB ∨ c = Py.BS →
  contains_char c (_escape_string s) = false.
Proof.
  intros Hc. unfold _escape_string.
  assert (contains_char c (escape_body s) = false) as Hbody.
  { induction s as [|ch s IH]; [done|].
    cbn [escape_body]. by rewrite contains_char_app, escape_char_plain, IH. }
  cbn [contains_char]. rewrite contains_char_app, Hbody. simpl.
  by destruct Hc as [->|[->|[->| ->]]].
Qed.

Lemma _escape_string_no_raw_control_witness :
  contains_char Py.LF
    (_escape_string ("two" +:+ Py.char Py.LF +:+ "lines")) = false.
Proof. apply _escape_string_no_raw_control. by left. Defined.

(** ** Comparing paths *)

Lemma segment_eqb_eq (sa sb : PathSegment) : segment_eqb sa sb = true ↔ sa = sb.
Proof.
  unfold segment_eqb. rewrite andb_true_iff, !bool_decide_eq_true.
  destruct sa, sb; simpl. split; [intros [-> ->]; done|by intros [= -> ->]].
Qed.

(** X5.  Two paths compare equal exactly when they are the same sequence
    of segments: same length, and names and indices equal at each
    position. *)
Theorem _segments_equal_eq (a b : list PathSegment) :
  _segments_equal a b = true ↔ a = b.
Proof.
  unfold _segments_equal. rewrite andb_true_iff, bool_decide_eq_true.
  split.
  - intros [Hlen Hzip]. revert b Hlen Hzip.
    induction a as [|sa a IH]; intros [|sb b] Hlen Hzip; try done.
    simpl in Hzip. apply andb_true_iff in Hzip as [Hs Hz].
    apply segment_eqb_eq in Hs as ->. f_equal. apply IH; [|done].
    simpl in Hlen. lia.
  - intros <-. split; [done|].
    induction a as [|sa a IH]; [done|]. simpl. rewrite IH.
    by rewrite (proj2 (segment_eqb_eq sa sa)).
Qed.

(** ** More on the header list *)

Lemma index_headers_sorted (lines : list string) (i j : nat) (hi hj : Header) :
  (i < j)%nat → index_headers lines !! i = Some hi →
  index_headers lines !! j = Some hj → start_line hi < start_line hj.
Proof.
  intros Hij Hi Hj.
  destruct (index_headers_lookup _ _ _ Hi) as (h0 & Hi0 & ->).
  destruct (index_headers_lookup _ _ _ Hj) as (h1 & Hj0 & ->). simpl.
  destruct j as [|j]; [lia|]. simpl in Hj0.
  destruct (scan_headers_spec _ _ _ _ _ Hj0) as (_ & Hr & _).
  destruct i as [|i]; [injection Hi0 as <-; simpl; lia|]. simpl in Hi0.
  destruct (scan_headers_spec _ _ _ _ _ Hi0) as (_ & _ & _ & _ & Hsort).
  eapply Hsort; [|done]. lia.
Qed.

(** Start and end of a header against the start of the next one. *)
Lemma index_headers_bounds (lines : list string) (k : nat) (h : Header) :
  index_headers lines !! k = Some h →
  let ns := next_start lines (index_headers lines) k in
  start_line h < ns <= Z.of_nat (length lines)
  ∧ start_line h <= end_line h <= ns - 1
  ∧ (kind h = root → start_line h = -1 ∧ k = 0%nat)
  ∧ (kind h ≠ root → 0 <= start_line h ∧ (0 < k)%nat).
Proof.
  intros Hk ns.
  assert (start_line h < ns <= Z.of_nat (length lines)) as Hns.
  { unfold ns, next_start.
    destruct (index_headers lines !! S k) as [h'|] eqn:Hk'.
    - split; [eapply (index_headers_sorted lines k (S k)); [lia|done..]|].
      destruct (index_headers_lookup _ _ _ Hk') as (h0 & Hk0 & ->). simpl in *.
      destruct (scan_headers_spec _ _ _ _ _ Hk0) as (_ & Hr & _). lia.
    - destruct (index_headers_lookup _ _ _ Hk) as (h0 & Hk0 & ->). simpl.
      destruct k as [|k]; [injection Hk0 as <-; simpl; lia|]. simpl in Hk0.
      destruct (scan_headers_spec _ _ _ _ _ Hk0) as (_ & Hr & _). lia. }
  split; [done|].
  destruct (index_headers_lookup _ _ _ Hk) as (h0 & Hk0 & ->).
  fold ns. simpl in *. unfold content_end.
  destruct k as [|k].
  - injection Hk0 as <-. simpl in *. repeat split; try done; lia.
  - simpl in Hk0.
    destruct (scan_headers_spec _ _ _ _ _ Hk0) as (Hkd & Hr & _).
    destruct (kind h0) eqn:Hkind; [done|..];
      rewrite walk_back_trim by lia;
      destruct (trim_back_spec lines (start_line h0)
                  (Z.to_nat (ns - 1 - start_line h0))) as (Hb & _);
      repeat split; try done; lia.
Qed.

(** X6.  The spans of the headers do not overlap: a header's content ends
    before the line of every later header, so no line is owned by two
    sections. *)
Theorem index_headers_disjoint (lines : list string) (i j : nat) (hi hj : Header) :
  (i < j)%nat → index_headers lines !! i = Some hi →
  index_headers lines !! j = Some hj →
  start_line hi <= end_line hi < start_line hj.
Proof.
  intros Hij Hi Hj.
  destruct (index_headers_bounds _ _ _ Hi) as (_ & Hend & _).
  split; [lia|].
  cut (next_start lines (index_headers lines) i <= start_line hj); [lia|].
  unfold next_start.
  destruct (index_headers lines !! S i) as [h'|] eqn:Hi'.
  - destruct (decide (S i = j)) as [<-|Hne]; [by simplify_eq|].
    pose proof (index_headers_sorted lines (S i) j h' hj ltac:(lia) Hi' Hj). lia.
  - apply lookup_ge_None in Hi'. apply lookup_lt_Some in Hj. lia.
Qed.

Lemma index_headers_disjoint_witness :
  start_line header_t <= end_line header_t < 6
  ∧ index_headers (doc_blank_before_table ++ [nl "[u]"]) !! 2%nat
    = Some {| kind := table; path := ["u"]; aot_index := None;
              start_line := 6; end_line := 6 |}.
Proof.
  split; [|vm_compute; reflexivity].
  apply (index_headers_disjoint (doc_blank_before_table ++ [nl "[u]"]) 1 2
           header_t
           {| kind := table; path := ["u"]; aot_index := None;
              start_line := 6; end_line := 6 |});
    [lia|vm_compute; reflexivity..].
Defined.

Lemma _parse_header_line_kind (line : string) (kd : Kind) (p : list string) :
  _parse_header_line line = Some (kd, p) → kd = table ∨ kd = aot.
Proof.
  unfold _parse_header_line.
  destruct (_HEADER_TABLE_RE_match line); [intros [= <- _]; by left|].
  destruct (_HEADER_AOT_RE_match line); [intros [= <- _]; by right|done].
Qed.

(** The first pass keeps, for each header line, its kind, path and index,
    and skips every other line. *)
Lemma scan_headers_lines (lines : list string) :
  ∀ (i : Z) (m : gmap (list string) nat),
    (∀ k h, scan_headers lines i m !! k = Some h →
            ∃ line, lines !! Z.to_nat (start_line h - i) = Some line
                    ∧ _parse_header_line line = Some (kind h, path h))
    ∧ (∀ (n : nat) line kd p,
          lines !! n = Some line → _parse_header_line line = Some (kd, p) →
          ∃ k h, scan_headers lines i m !! k = Some h
                 ∧ start_line h = i + Z.of_nat n ∧ kind h = kd ∧ path h = p).
Proof.
  induction lines as [|line rest IH]; intros i m; [split; intros; done|].
  assert (∀ m' k h, scan_headers rest (i + 1) m' !! k = Some h →
            ∃ l0, (line :: rest) !! Z.to_nat (start_line h - i) = Some l0
                  ∧ _parse_header_line l0 = Some (kind h, path h)) as Hsound.
  { intros m' k h Hk. destruct (IH (i + 1) m') as [Hs _].
    destruct (Hs _ _ Hk) as (l0 & Hl & Hp).
    destruct (scan_headers_spec _ _ _ _ _ Hk) as (_ & Hr & _).
    exists l0. split; [|done].
    by replace (Z.to_nat (start_line h - i))
      with (S (Z.to_nat (start_line h - (i + 1)))) by lia. }
  assert (∀ m' (n : nat) l0 kd p,
            rest !! n = Some l0 → _parse_header_line l0 = Some (kd, p) →
            ∃ k h, scan_headers rest (i + 1) m' !! k = Some h
                   ∧ start_line h = i + Z.of_nat (S n) ∧ kind h = kd ∧ path h = p)
    as Hcompl.
  { intros m' n l0 kd p Hn Hp. destruct (IH (i + 1) m') as [_ Hc].
    destruct (Hc _ _ _ _ Hn Hp) as (k & h & Hk & Hst & Hkd & Hpa).
    exists k, h. repeat split; try done. lia. }
  simpl. destruct (_parse_header_line line) as [[kd p]|] eqn:Hp.
  - destruct (_parse_header_line_kind _ _ _ Hp) as [-> | ->]; split.
    + intros [|k] h Hk; simpl in Hk; [|by eapply Hsound].
      injection Hk as <-. simpl. exists line. by rewrite Z.sub_diag.
    + intros [|n] l0 kd' p' Hn Hp'; simpl in Hn.
      * injection Hn as <-. rewrite Hp in Hp'. injection Hp' as <- <-.
        eexists 0%nat, _. split; [done|]. simpl. repeat split. lia.
      * destruct (Hcompl m n l0 kd' p' Hn Hp') as (k & h & Hk & ?).
        by exists (S k), h.
    + intros [|k] h Hk; simpl in Hk; [|by eapply Hsound].
      injection Hk as <-. simpl. exists line. by rewrite Z.sub_diag.
    + intros [|n] l0 kd' p' Hn Hp'; simpl in Hn.
      * injection Hn as <-. rewrite Hp in Hp'. injection Hp' as <- <-.
        eexists 0%nat, _. split; [done|]. simpl. repeat split. lia.
      * destruct (Hcompl (<[p:=S (default 0%nat (m !! p))]> m) n l0 kd' p' Hn Hp')
          as (k & h & Hk & ?).
        by exists (S k), h.
  - split.
    + intros k h Hk. by eapply Hsound.
    + intros [|n] l0 kd' p' Hn Hp'; simpl in Hn.
      * injection Hn as <-. congruence.
      * by eapply Hcompl.
Qed.

(** X7.  The real headers of the list are exactly the header lines of the
    document: each one sits on a line that parses as a header with its
    kind and path, and every line that parses as a header has its header
    in the list. *)
Theorem index_headers_header_lines (lines : list string) :
  (∀ k h, index_headers lines !! k = Some h → kind h ≠ root →
          ∃ line, lines !! Z.to_nat (start_line h) = Some line
                  ∧ _parse_header_line line = Some (kind h, path h))
  ∧ (∀ (n : nat) line kd p,
        lines !! n = Some line → _parse_header_line line = Some (kd, p) →
        ∃ k h, index_headers lines !! k = Some h
               ∧ start_line h = Z.of_nat n ∧ kind h = kd ∧ path h = p).
Proof.
  destruct (scan_headers_lines lines 0 ∅) as [Hs Hc]. split.
  - intros k h Hk Hkind.
    destruct (index_headers_lookup _ _ _ Hk) as (h0 & Hk0 & ->). simpl in *.
    destruct k as [|k]; [by injection Hk0 as <-|]. simpl in Hk0.
    destruct (Hs _ _ Hk0) as (line & Hl & Hp).
    exists line. by rewrite Z.sub_0_r in Hl.
  - intros n line kd p Hn Hp.
    destruct (Hc _ _ _ _ Hn Hp) as (k & h0 & Hk0 & Hst & Hkd & Hpa).
    exists (S k), (set_end_line h0
                     (content_end lines h0
                        (next_start lines (root_header :: scan_headers lines 0 ∅) (S k)))).
    split; [|simpl; repeat split; try done; lia].
    unfold index_headers. rewrite compute_end_lines_lookup. simpl.
    by rewrite Hk0.
Qed.

(** ** Resolving a section *)

(** What a successful resolution returns: a header of the list, with the
    span read off it, of the kind and path the target asks for. *)
Lemma find_section_block_inv (headers : list Header) (target : list PathSegment)
    (h : Header) (start end_ : Z) :
  find_section_block headers target = Ok (h, start, end_) →
  h ∈ headers ∧ start = start_line h + 1 ∧ end_ = end_line h
  ∧ match last target with
    | None => kind h = root
    | Some t =>
        path h = map name target
        ∧ match index t with
          | Some idx => kind h = aot ∧ aot_index h = Some idx
          | None => kind h = table ∨ kind h = aot
          end
    end.
Proof.
  unfold find_section_block, block.
  destruct (last target) as [t|].
  - destruct (index t) as [idx|].
    + destruct (filter _ headers) as [|h' l] eqn:Hf; [done|].
      intros [= <- <- <-].
      assert (h' ∈ filter (λ h, kind h = aot ∧ path h = map name target
                                ∧ aot_index h = Some idx) headers) as Hin
        by (rewrite Hf; apply list_elem_of_here).
      apply list_elem_of_filter in Hin as [(? & ? & ?) ?]. done.
    + destruct (filter (λ h, kind h = table ∧ _) headers) as [|h' l] eqn:Hf.
      * destruct (filter (λ h, kind h = aot ∧ _) headers) as [|h' [|? ?]] eqn:Hg;
          [done| |done].
        intros [= <- <- <-].
        assert (h' ∈ filter (λ h, kind h = aot ∧ path h = map name target)
                       headers) as Hin
          by (rewrite Hg; apply list_elem_of_here).
        apply list_elem_of_filter in Hin as [[? ?] ?]. repeat split; auto.
      * intros [= <- <- <-].
        assert (h' ∈ filter (λ h, kind h = table ∧ path h = map name target)
                       headers) as Hin
          by (rewrite Hf; apply list_elem_of_here).
        apply list_elem_of_filter in Hin as [[? ?] ?]. repeat split; auto.
  - destruct (filter _ headers) as [|h' l] eqn:Hf; [done|].
    intros [= <- <- <-].
    assert (h' ∈ filter (λ h, kind h = root) headers) as Hin
      by (rewrite Hf; apply list_elem_of_here).
    apply list_elem_of_filter in Hin as [? ?]. done.
Qed.

(** X8.  A section that resolves is a header of the list: the span returned
    runs from the line after the header to its content end, the header's
    path is the target's names, and its kind is what the target asks for
    (the root for the empty path, the indexed occurrence for an index, a
    table or an array-of-tables header otherwise). *)
Theorem find_section_block_sound (headers : list Header)
    (target : list PathSegment) (h : Header) (start end_ : Z) :
  find_section_block headers target = Ok (h, start, end_) →
  h ∈ headers ∧ start = start_line h + 1 ∧ end_ = end_line h
  ∧ (target = [] → kind h = root)
  ∧ (∀ t, last target = Some t →
          path h = map name target
          ∧ (∀ idx, index t = Some idx → kind h = aot ∧ aot_index h = Some idx)
          ∧ (index t = None → kind h = table ∨ kind h = aot)).
Proof.
  intros Hf. destruct (find_section_block_inv _ _ _ _ _ Hf) as (Hin & -> & -> & Hk).
  split; [done|]. split; [done|]. split; [done|]. split.
  - by intros ->.
  - intros t Ht. rewrite Ht in Hk. destruct Hk as [Hp Hk].
    split; [done|]. split.
    + intros idx Hidx. by rewrite Hidx in Hk.
    + intros Hidx. by rewrite Hidx in Hk.
Qed.

Lemma find_section_block_sound_witness :
  ∃ h, find_section_block (index_headers doc_two_groups)
         [{| name := "group"; index := Some 1%nat |}] = Ok (h, 3, 3)
       ∧ h ∈ index_headers doc_two_groups ∧ 3 = start_line h + 1.
Proof.
  eexists. split; [vm_compute; reflexivity|].
  destruct (find_section_block_sound (index_headers doc_two_groups)
              [{| name := "group"; index := Some 1%nat |}]
              {| kind := aot; path := ["group"]; aot_index := Some 1%nat;
                 start_line := 2; end_line := 3 |} 3 3)
    as (Hin & Hs & _); [vm_compute; reflexivity|]. by split.
Defined.

(** The index of an array-of-tables header counts the earlier headers of
    the same kind and path. *)
Lemma index_headers_aot_index (lines : list string) (k : nat) (h : Header) :
  index_headers lines !! k = Some h → kind h = aot →
  aot_index h = Some (occurrences (path h) (take k (index_headers lines))).
Proof.
  intros Hk Ha.
  destruct (index_headers_lookup _ _ _ Hk) as (h0 & Hk0 & ->). simpl in *.
  destruct k as [|k]; [by injection Hk0 as <-|]. simpl in Hk0.
  destruct (scan_headers_spec _ _ _ _ _ Hk0) as (_ & _ & _ & Hidx & _).
  rewrite (Hidx Ha), lookup_empty. apply (f_equal Some).
  unfold index_headers.
  rewrite (occurrences_ext (path h0)
             (take (S k) (compute_end_lines lines (root_header :: scan_headers lines 0 ∅)))
             (take (S k) (root_header :: scan_headers lines 0 ∅)))
    by (apply Forall2_take, compute_end_lines_same).
  unfold occurrences. simpl. by rewrite filter_cons_False by (by intros [? _]).
Qed.

(** X9.  On the headers of a document, a table path whose last segment
    carries the index [idx] resolves to the array-of-tables header of that
    path which has [idx] headers of the same path before it, and is not
    found when the document has at most [idx] such headers. *)
Theorem find_section_block_indexed (lines : list string)
    (target : list PathSegment) (t : PathSegment) (idx : nat) :
  last target = Some t → index t = Some idx →
  let hs := index_headers lines in
  let p := map name target in
  (∀ k h, hs !! k = Some h → kind h = aot → path h = p →
          occurrences p (take k hs) = idx →
          find_section_block hs target = Ok (block h))
  ∧ ((occurrences p hs <= idx)%nat →
     find_section_block hs target = Raise KeyError).
Proof.
  intros Hlast Hidx hs p.
  assert (∀ k' h', hs !! k' = Some h' →
            kind h' = aot ∧ path h' = p ∧ aot_index h' = Some idx →
            occurrences p (take k' hs) = idx) as Hocc.
  { intros k' h' Hk' (Hkd & Hp & Hi).
    rewrite (index_headers_aot_index lines k' h' Hk' Hkd), Hp in Hi.
    by injection Hi. }
  unfold find_section_block. rewrite Hlast, Hidx. fold p. split.
  - intros k h Hk Hkd Hp Hcount.
    rewrite <- (take_drop_middle hs k h Hk).
    rewrite (filter_first _ (take k hs) (drop (S k) hs) h); [done| |].
    + apply Forall_lookup_2. intros k' h' Hk' HP.
      apply lookup_take_Some in Hk' as [Hk' Hlt].
      pose proof (Hocc k' h' Hk' HP) as Hc'.
      destruct HP as (Hkd' & Hp' & _).
      pose proof (occurrences_take_lt p hs k' k h' Hk' Hkd' Hp' Hlt). lia.
    + split; [done|]. split; [done|].
      rewrite (index_headers_aot_index lines k h Hk Hkd), Hp.
      fold hs. by rewrite Hcount.
  - intros Hle. rewrite filter_none; [done|].
    apply Forall_lookup_2. intros k' h' Hk' HP.
    pose proof (Hocc k' h' Hk' HP) as Hc'.
    destruct HP as (Hkd' & Hp' & _).
    pose proof (occurrences_take_lt p hs k' (length hs) h' Hk' Hkd' Hp'
                  (lookup_lt_Some _ _ _ Hk')) as Hlt.
    rewrite firstn_all in Hlt. lia.
Qed.

Lemma find_section_block_indexed_witness :
  find_section_block (index_headers doc_two_groups)
    [{| name := "group"; index := Some 1%nat |}]
  = Ok ({| kind := aot; path := ["group"]; aot_index := Some 1%nat;
           start_line := 2; end_line := 3 |}, 3, 3)
  ∧ find_section_block (index_headers doc_two_groups)
      [{| name := "group"; index := Some 2%nat |}]
    = Raise KeyError.
Proof.
  split.
  - destruct (find_section_block_indexed doc_two_groups
                [{| name := "group"; index := Some 1%nat |}]
                {| name := "group"; index := Some 1%nat |} 1 eq_refl eq_refl)
      as [H _].
    apply (H 2%nat); [vm_compute; reflexivity|done|done|vm_compute; reflexivity].
  - destruct (find_section_block_indexed doc_two_groups
                [{| name := "group"; index := Some 2%nat |}]
                {| name := "group"; index := Some 2%nat |} 2 eq_refl eq_refl)
      as [_ H].
    apply H. vm_compute. lia.
Defined.

(** ** Deleting a key, deleting a section *)

Lemma slice_span {A} (l : list A) (s e : Z) :
  0 <= s → 0 <= e →
  Py.slice_to l s ++ Py.slice_from l (e + 1)
  = take (Z.to_nat s) l ++ drop (S (Z.to_nat e)) l.
Proof.
  intros Hs He. unfold Py.slice_to, Py.slice_from.
  destruct (s <? 0) eqn:H1; [apply Z.ltb_lt in H1; lia|].
  destruct (e + 1 <? 0) eqn:H2; [apply Z.ltb_lt in H2; lia|].
  by replace (Z.to_nat (e + 1)) with (S (Z.to_nat e)) by lia.
Qed.

(** Cutting the span from [s] to [e] out of a list. *)
Lemma cut_span {A} (l : list A) (s e : nat) :
  (s <= e < length l)%nat →
  let out := take s l ++ drop (S e) l in
  (∀ i, (i < s)%nat → out !! i = l !! i)
  ∧ (∀ i, (e < i)%nat → out !! (i - (e - s + 1))%nat = l !! i)
  ∧ length out = (length l - (e - s + 1))%nat.
Proof.
  intros Hse out.
  assert (length (take s l) = s) as Hlen by (rewrite length_take; lia).
  split; [|split].
  - intros i Hi. unfold out. rewrite lookup_app_l by lia.
    by rewrite lookup_take_lt.
  - intros i Hi. unfold out. rewrite lookup_app_r by lia. rewrite Hlen.
    rewrite lookup_drop. f_equal. lia.
  - unfold out. rewrite length_app, Hlen, length_drop. lia.
Qed.

(** X10.  When the path of a delete-key request resolves to the span from
    [start] to [end_], [apply_delete_key] returns the document without the
    lines of that span: the lines before and after it are those of the
    input, in order, and nothing is put in their place. *)
Theorem apply_delete_key_locality (lines : list string)
    (delp : list PathSegment) (start end_ : Z) (ksegs : list string) :
  find_assignment_block_by_full_path lines (index_headers lines) delp
  = Ok (start, end_, ksegs) →
  ∃ s e : nat,
    start = Z.of_nat s ∧ end_ = Z.of_nat e ∧ (s <= e < length lines)%nat
    ∧ let out := take s lines ++ drop (S e) lines in
      apply_delete_key lines delp = Continue out
      ∧ (∀ i, (i < s)%nat → out !! i = lines !! i)
      ∧ (∀ i, (e < i)%nat → out !! (i - (e - s + 1))%nat = lines !! i)
      ∧ length out = (length lines - (e - s + 1))%nat.
Proof.
  intros Hfind.
  destruct (find_assignment_block_span _ _ _ _ _ _ Hfind) as [Hs He].
  exists (Z.to_nat start), (Z.to_nat end_).
  split; [lia|]. split; [lia|]. split; [lia|].
  split; [|apply cut_span; lia].
  unfold apply_delete_key. rewrite Hfind. by rewrite slice_span by lia.
Qed.

Lemma apply_delete_key_locality_witness :
  apply_delete_key doc_scenario_a
    [seg "simplest_config_possible"; seg "int_value"]
  = Continue [nl "[simplest_config_possible]"].
Proof.
  destruct (apply_delete_key_locality doc_scenario_a
              [seg "simplest_config_possible"; seg "int_value"] 1 1 ["int_value"])
    as (s & e & Hs & He & _ & Happly & _).
  - vm_compute. reflexivity.
  - assert (s = 1%nat) as -> by lia. assert (e = 1%nat) as -> by lia.
    exact Happly.
Defined.

Lemma index_headers_real_line (lines : list string) (k : nat) (h : Header) :
  index_headers lines !! k = Some h → kind h ≠ root →
  ∃ line, lines !! Z.to_nat (start_line h) = Some line
          ∧ _parse_header_line line = Some (kind h, path h).
Proof.
  intros Hk Hkind.
  destruct (scan_headers_lines lines 0 ∅) as [Hs _].
  destruct (index_headers_lookup _ _ _ Hk) as (h0 & Hk0 & ->). simpl in *.
  destruct k as [|k]; [by injection Hk0 as <-|]. simpl in Hk0.
  destruct (Hs _ _ Hk0) as (line & Hl & Hp).
  exists line. by rewrite Z.sub_0_r in Hl.
Qed.

Lemma index_headers_trailing (lines : list string) (k : nat) (h : Header) :
  index_headers lines !! k = Some h → kind h ≠ root →
  ∀ j, end_line h < j <= next_start lines (index_headers lines) k - 1 →
       _is_comment_or_blank (line_at lines j) = true.
Proof.
  intros Hk Hkind j Hj.
  destruct (index_headers_bounds _ _ _ Hk) as (Hns & _).
  destruct (index_headers_lookup _ _ _ Hk) as (h0 & Hk0 & ->).
  simpl in *. unfold content_end in Hj.
  destruct (kind h0) eqn:Hkd; [done|..];
    rewrite walk_back_trim in Hj by lia;
    destruct (trim_back_spec lines (start_line h0)
                (Z.to_nat (next_start lines (index_headers lines) k - 1
                           - start_line h0))) as (_ & Hall & _);
    apply Hall; lia.
Qed.

(** X11.  Deleting the root section (the empty path) is refused with exit
    code 4.  Deleting a section that resolves removes the lines from its
    header line to its content end, and nothing else; the header line is
    the first line removed, and the lines left between the removed block
    and the next header are blank or comment lines. *)
Theorem apply_delete_section_spec (lines : list string)
    (target : list PathSegment) :
  (target = [] → apply_delete_section lines target = Exit 4)
  ∧ (∀ h st en,
        target ≠ [] →
        find_section_block (index_headers lines) target = Ok (h, st, en) →
        ∃ (s e k : nat),
          start_line h = Z.of_nat s ∧ end_line h = Z.of_nat e
          ∧ (s <= e < length lines)%nat
          ∧ apply_delete_section lines target
            = Continue (take s lines ++ drop (S e) lines)
          ∧ index_headers lines !! k = Some h
          ∧ (∃ line, lines !! s = Some line
                     ∧ _parse_header_line line = Some (kind h, path h))
          ∧ (∀ j, Z.of_nat e < j < next_start lines (index_headers lines) k →
                  _is_comment_or_blank (line_at lines j) = true)).
Proof.
  split.
  - intros ->. unfold apply_delete_section, find_section_block, index_headers.
    cbn [last compute_end_lines kind root_header].
    rewrite filter_cons_True by done. done.
  - intros h st en Hne Hfind.
    destruct (find_section_block_inv _ _ _ _ _ Hfind) as (Hin & -> & -> & Hk).
    assert (kind h ≠ root) as Hkind.
    { destruct (last target) as [t|] eqn:Hl.
      - destruct Hk as [_ Hk]. destruct (index t); [destruct Hk as [-> _]|
          destruct Hk as [-> | ->]]; done.
      - by apply last_None in Hl. }
    apply list_elem_of_lookup in Hin as [k Hlk].
    destruct (index_headers_bounds _ _ _ Hlk) as (Hns & Hend & _ & Hreal).
    destruct (Hreal Hkind) as [Hs0 _].
    exists (Z.to_nat (start_line h)), (Z.to_nat (end_line h)), k.
    split; [lia|]. split; [lia|]. split; [lia|]. split; [|split; [done|split]].
    + unfold apply_delete_section. rewrite Hfind.
      destruct (kind h); [done|..]; by rewrite slice_span by lia.
    + by apply (index_headers_real_line lines k).
    + intros j Hj. apply (index_headers_trailing lines k h Hlk Hkind). lia.
Qed.

Lemma apply_delete_section_spec_witness :
  apply_delete_section doc_blank_before_table [seg "t"]
  = Continue (map nl ["a = 1"; ""; "# note"; ""]).
Proof.
  destruct (apply_delete_section_spec doc_blank_before_table [seg "t"]) as [_ H].
  destruct (H (set_end_line header_t 3) 3 3) as (s & e & k & Hs & He & _ & Happly & _).
  - discriminate.
  - vm_compute. reflexivity.
  - simpl in Hs, He.
    assert (s = 2%nat) as -> by lia. assert (e = 3%nat) as -> by lia.
    exact Happly.
Defined.

(** ** More on the assignment locator *)

Lemma collect_matches_complete (lines : list string) (header : Header)
    (full_path : list PathSegment) (end_ : Z) (rest : list string) :
  ∀ (i : Z) (k : nat) line (m : Match),
    rest !! k = Some line → i + Z.of_nat k <= end_ →
    assignment_match lines header full_path (i + Z.of_nat k) line = Some m →
    m ∈ collect_matches lines header full_path end_ i rest.
Proof.
  induction rest as [|l0 rest IH]; intros i k line m Hk Hle Ha; [done|].
  simpl. destruct (end_ <? i) eqn:Hend; [apply Z.ltb_lt in Hend; lia|].
  destruct k as [|k].
  - injection Hk as ->. rewrite Z.add_0_r in Ha. rewrite Ha.
    apply list_elem_of_here.
  - assert (m ∈ collect_matches lines header full_path end_ (i + 1) rest) as Hin.
    { apply (IH (i + 1) k line m Hk); [lia|].
      by replace (i + 1 + Z.of_nat k) with (i + Z.of_nat (S k)) by lia. }
    destruct (assignment_match lines header full_path i l0);
      [by apply list_elem_of_further|done].
Qed.

Lemma collect_matches_two (lines : list string) (header : Header)
    (full_path : list PathSegment) (end_ : Z) (rest : list string) :
  ∀ (i : Z) (k1 k2 : nat) l1 l2 (m1 m2 : Match),
    (k1 < k2)%nat → rest !! k1 = Some l1 → rest !! k2 = Some l2 →
    i + Z.of_nat k2 <= end_ →
    assignment_match lines header full_path (i + Z.of_nat k1) l1 = Some m1 →
    assignment_match lines header full_path (i + Z.of_nat k2) l2 = Some m2 →
    (2 <= length (collect_matches lines header full_path end_ i rest))%nat.
Proof.
  induction rest as [|l0 rest IH]; intros i k1 k2 l1 l2 m1 m2 Hlt H1 H2 Hle Ha1 Ha2;
    [done|].
  simpl. destruct (end_ <? i) eqn:Hend; [apply Z.ltb_lt in Hend; lia|].
  destruct k2 as [|k2]; [lia|]. simpl in H2.
  replace (i + Z.of_nat (S k2)) with (i + 1 + Z.of_nat k2) in Ha2, Hle by lia.
  destruct k1 as [|k1].
  - injection H1 as ->. rewrite Z.add_0_r in Ha1. rewrite Ha1. simpl.
    pose proof (collect_matches_complete lines header full_path end_ rest
                  (i + 1) k2 l2 m2 H2 Hle Ha2) as Hin.
    destruct (collect_matches _ _ _ _ _ rest); [by apply elem_of_nil in Hin|].
    simpl. lia.
  - simpl in H1.
    replace (i + Z.of_nat (S k1)) with (i + 1 + Z.of_nat k1) in Ha1 by lia.
    pose proof (IH (i + 1) k1 k2 l1 l2 m1 m2 ltac:(lia) H1 H2 Hle Ha1 Ha2).
    destruct (assignment_match lines header full_path i l0); simpl; lia.
Qed.

Lemma lstrip_nonspace (s : string) (c : ascii) (r : string) :
  Py.lstrip s = String c r → Py.isspace c = false.
Proof.
  induction s as [|d s IH]; [done|]. simpl.
  destruct (Py.isspace d) eqn:Hd; [done|]. by intros [= <- _].
Qed.

Lemma startswith_char_inv (c q : ascii) (r : string) :
  Py.startswith (String c r) (Py.char q) = false → c ≠ q.
Proof. intros H ->. by rewrite startswith_head in H. Qed.

(** A line the locator takes for an assignment is not blank, not a comment
    and not a header line. *)
Lemma assignment_match_line (lines : list string) (header : Header)
    (full_path : list PathSegment) (i : Z) (line : string) (m : Match) :
  assignment_match lines header full_path i line = Some m →
  _is_comment_or_blank line = false ∧ _parse_header_line line = None.
Proof.
  unfold assignment_match. intros H.
  destruct (Py.lstrip line) as [|c r] eqn:Hl; [done|].
  destruct (Py.startswith (String c r) "#") eqn:Hh; [done|].
  destruct (Py.startswith (String c r) "[") eqn:Hb; [done|].
  apply (startswith_char_inv c "#") in Hh. apply (startswith_char_inv c "[") in Hb.
  pose proof (lstrip_nonspace _ _ _ Hl) as Hc.
  split.
  - unfold _is_comment_or_blank, Py.strip. rewrite Hl.
    destruct (rstrip_keeps_head c r Hc) as [r' ->].
    by apply (startswith_other c "#").
  - unfold _parse_header_line, _HEADER_TABLE_RE_match, _HEADER_AOT_RE_match.
    rewrite Hl. destruct (Ascii.eqb_spec c "["); [done|].
    by destruct r as [|? [|? ?]].
Qed.

Lemma find_assignment_block_inv (lines : list string) (headers : list Header)
    (full_path : list PathSegment) (m : Match) :
  find_assignment_block_by_full_path lines headers full_path = Ok m →
  ∃ header start end_ (j : nat) line,
    find_section_block headers (removelast full_path) = Ok (header, start, end_)
    ∧ Z.max start 0 <= Z.of_nat j <= end_
    ∧ lines !! j = Some line
    ∧ assignment_match lines header full_path (Z.of_nat j) line = Some m
    ∧ _is_comment_or_blank line = false ∧ _parse_header_line line = None
    ∧ (∀ j' m', Z.max start 0 <= Z.of_nat j' <= end_ →
                matching_line lines header full_path j' m' →
                j' = j ∧ m' = m).
Proof.
  unfold find_assignment_block_by_full_path.
  destruct full_path as [|s0 fp]; [done|].
  destruct (find_section_block headers _) as [[[h st] en]|] eqn:Hsec; [|done].
  destruct (collect_matches _ _ _ _ _ _) as [|m0 [|m1 ms]] eqn:Hc.
  - destruct (last _) as [t|]; [|done].
    destruct (index t); [done|]. by destruct (bool_decide _).
  - intros [= ->].
    assert (m ∈ collect_matches lines h (s0 :: fp) en (Z.max st 0)
                  (drop (Z.to_nat (Z.max st 0)) lines)) as Hin
      by (rewrite Hc; apply list_elem_of_here).
    destruct (collect_matches_sound _ _ _ _ _ _ _ Hin) as (k & line & Hk & Hle & Ha).
    rewrite lookup_drop in Hk.
    exists h, st, en, (Z.to_nat (Z.max st 0) + k)%nat, line.
    replace (Z.of_nat (Z.to_nat (Z.max st 0) + k)) with (Z.max st 0 + Z.of_nat k)
      by lia.
    destruct (assignment_match_line _ _ _ _ _ _ Ha) as [Hnb Hnh].
    split; [done|]. split; [lia|]. split; [done|]. split; [done|].
    split; [done|]. split; [done|].
    intros j' m' Hj' (l' & Hl' & Ha').
    assert (m' ∈ collect_matches lines h (s0 :: fp) en (Z.max st 0)
                   (drop (Z.to_nat (Z.max st 0)) lines)) as Hin'.
    { apply (collect_matches_complete _ _ _ _ _ _
               (j' - Z.to_nat (Z.max st 0))%nat l').
      - rewrite lookup_drop. rewrite <- Hl'. f_equal. lia.
      - lia.
      - by replace (Z.max st 0 + Z.of_nat (j' - Z.to_nat (Z.max st 0)))
          with (Z.of_nat j') by lia. }
    rewrite Hc in Hin'. apply list_elem_of_singleton in Hin' as ->.
    split; [|done].
    destruct (assignment_match_inv _ _ _ _ _ _ Ha) as (? & ? & _ & _ & _ & Hm).
    destruct (assignment_match_inv _ _ _ _ _ _ Ha') as (? & ? & _ & _ & _ & Hm').
    rewrite Hm in Hm'. injection Hm' as Hj _ _. lia.
  - done.
Qed.

(** X12.  When the locator returns a match, the match is for a line inside
    the span of the resolved section; that line is not blank, not a comment
    and not a header line, and it is the only line of the span that is an
    assignment to the requested path. *)
Theorem find_assignment_block_sound (lines : list string) (headers : list Header)
    (full_path : list PathSegment) (m : Match) :
  find_assignment_block_by_full_path lines headers full_path = Ok m →
  ∃ header start end_ (j : nat) line,
    find_section_block headers (removelast full_path) = Ok (header, start, end_)
    ∧ Z.max start 0 <= Z.of_nat j <= end_
    ∧ lines !! j = Some line
    ∧ assignment_match lines header full_path (Z.of_nat j) line = Some m
    ∧ _is_comment_or_blank line = false ∧ _parse_header_line line = None
    ∧ (∀ j' m', Z.max start 0 <= Z.of_nat j' <= end_ →
                matching_line lines header full_path j' m' →
                j' = j ∧ m' = m).
Proof. apply find_assignment_block_inv. Qed.

Lemma find_assignment_block_sound_witness :
  ∃ line, doc_quoted_key !! 0%nat = Some line
          ∧ _is_comment_or_blank line = false.
Proof.
  destruct (find_assignment_block_sound doc_quoted_key
              (index_headers doc_quoted_key) [seg "a"] (0, 0, ["a"]) eq_refl)
    as (h & st & en & j & line & _ & Hj & Hline & Ha & Hnb & _).
  destruct (assignment_match_inv _ _ _ _ _ _ Ha) as (? & ? & _ & _ & _ & Hm).
  injection Hm as Hj0 _ _.
  assert (j = 0%nat) as -> by lia. by exists line.
Defined.

(** X13.  When two different lines of the resolved section's span are
    assignments to the requested path, the locator raises [RuntimeError]
    (ambiguous path); and when none is, it returns no span. *)
Theorem find_assignment_block_ambiguous (lines : list string)
    (headers : list Header) (full_path : list PathSegment)
    (header : Header) (start end_ : Z) :
  full_path ≠ [] →
  find_section_block headers (removelast full_path) = Ok (header, start, end_) →
  (∀ j1 j2 m1 m2,
      j1 ≠ j2 →
      Z.max start 0 <= Z.of_nat j1 <= end_ → Z.max start 0 <= Z.of_nat j2 <= end_ →
      matching_line lines header full_path j1 m1 →
      matching_line lines header full_path j2 m2 →
      find_assignment_block_by_full_path lines headers full_path
      = Raise RuntimeError)
  ∧ ((∀ j m, Z.max start 0 <= Z.of_nat j <= end_ →
             ¬ matching_line lines header full_path j m) →
     ∃ e, find_assignment_block_by_full_path lines headers full_path = Raise e).
Proof.
  intros Hne Hsec. split.
  - assert (∀ j1 j2 m1 m2,
      (j1 < j2)%nat →
      Z.max start 0 <= Z.of_nat j1 <= end_ → Z.max start 0 <= Z.of_nat j2 <= end_ →
      matching_line lines header full_path j1 m1 →
      matching_line lines header full_path j2 m2 →
      find_assignment_block_by_full_path lines headers full_path
      = Raise RuntimeError) as Hord.
    { intros j1 j2 m1 m2 Hlt Hj1 Hj2 (l1 & Hl1 & Ha1) (l2 & Hl2 & Ha2).
      unfold find_assignment_block_by_full_path.
      destruct full_path as [|s0 fp]; [done|]. rewrite Hsec.
      assert (2 <= length (collect_matches lines header (s0 :: fp) end_
                             (Z.max start 0)
                             (drop (Z.to_nat (Z.max start 0)) lines)))%nat
        as Htwo.
      { apply (collect_matches_two lines header (s0 :: fp) end_ _ (Z.max start 0)
                 (j1 - Z.to_nat (Z.max start 0))%nat
                 (j2 - Z.to_nat (Z.max start 0))%nat l1 l2 m1 m2).
        - lia.
        - rewrite lookup_drop, <- Hl1. f_equal. lia.
        - rewrite lookup_drop, <- Hl2. f_equal. lia.
        - lia.
        - by replace (Z.max start 0 + Z.of_nat (j1 - Z.to_nat (Z.max start 0)))
            with (Z.of_nat j1) by lia.
        - by replace (Z.max start 0 + Z.of_nat (j2 - Z.to_nat (Z.max start 0)))
            with (Z.of_nat j2) by lia. }
      destruct (collect_matches _ _ _ _ _ _) as [|a [|b l]]; simpl in Htwo;
        [lia|lia|done]. }
    intros j1 j2 m1 m2 Hneq Hj1 Hj2 H1 H2.
    destruct (decide (j1 < j2)%nat).
    + by eapply (Hord j1 j2).
    + eapply (Hord j2 j1); [lia|done..].
  - intros Hnone.
    destruct (find_assignment_block_by_full_path lines headers full_path)
      as [m|e] eqn:Hf; [|by exists e].
    destruct (find_assignment_block_inv lines headers full_path m Hf)
      as (h & st & en & j & line & Hsec' & Hj & Hl & Ha & _).
    rewrite Hsec in Hsec'. injection Hsec' as <- <- <-.
    destruct (Hnone j m Hj). by exists line.
Qed.

Lemma find_assignment_block_ambiguous_witness :
  find_assignment_block_by_full_path (map nl ["k = 1"; "k = 2"])
    (index_headers (map nl ["k = 1"; "k = 2"])) [seg "k"]
  = Raise RuntimeError.
Proof.
  destruct (find_assignment_block_ambiguous (map nl ["k = 1"; "k = 2"])
              (index_headers (map nl ["k = 1"; "k = 2"])) [seg "k"]
              (set_end_line root_header 1) 0 1) as [H _].
  - discriminate.
  - reflexivity.
  - apply (H 0%nat 1%nat (0, 0, ["k"]) (1, 1, ["k"])); [lia|lia|lia| |];
      eexists; (split; [reflexivity|vm_compute; reflexivity]).
Defined.

(** ** Values on one line *)

Lemma contains_char_cons (c d : ascii) (r : string) :
  contains_char c (String d r) = false →
  Ascii.eqb d c = false ∧ contains_char c r = false.
Proof. simpl. by intros [? ?]%orb_false_iff. Qed.

(** Outside any string and with both depths zero, a text without quotes
    and without opening brackets leaves the scan where it is, or stops it
    at a comment. *)
Lemma scan_text_plain (text : string) :
  ∀ st, value_ends st = true →
        contains_char Py.DQ text = false → contains_char Py.SQ text = false →
        contains_char "[" text = false → contains_char "{" text = false →
        finishes st text = true.
Proof.
  unfold finishes.
  induction text as [|ch r IH]; intros st Hst Hdq Hsq Hsb Hcb; [done|].
  apply contains_char_cons in Hdq as [Hdq Hdq'].
  apply contains_char_cons in Hsq as [Hsq Hsq'].
  apply contains_char_cons in Hsb as [Hsb Hsb'].
  apply contains_char_cons in Hcb as [Hcb Hcb'].
  cbn [scan_text].
  pose proof Hst as Hst'. apply value_ends_spec in Hst'.
  destruct st as [ds dc a b c d]; simpl in Hst'.
  destruct Hst' as (-> & -> & -> & -> & -> & ->).
  unfold scan_char. cbn [in_triple_dq in_triple_sq in_dq in_sq depth_square
                        depth_curly Py.take String.eqb TRIPLE_DQ TRIPLE_SQ].
  unfold TRIPLE_DQ, TRIPLE_SQ, Py.char. cbn [String.eqb].
  rewrite Hdq, Hsq, Hsb, Hcb. cbn [andb].
  change (Ascii.eqb ch "'") with (Ascii.eqb ch Py.SQ). rewrite Hsq. cbn [andb].
  destruct (Ascii.eqb ch "]"); [by apply IH|].
  destruct (Ascii.eqb ch "}"); [by apply IH|].
  destruct (Ascii.eqb ch "#"); [done|]. by apply IH.
Qed.

(** X14.  A value whose text on the start line, after the start column,
    holds no quote and no opening bracket or brace ends on the start line:
    a plain scalar is one line, whatever follows it in the document. *)
Theorem _value_block_end_plain (lines : list string) (start_line start_col : nat)
    (line : string) :
  lines !! start_line = Some line →
  contains_char Py.DQ (Py.drop start_col line) = false →
  contains_char Py.SQ (Py.drop start_col line) = false →
  contains_char "[" (Py.drop start_col line) = false →
  contains_char "{" (Py.drop start_col line) = false →
  _value_block_end lines start_line start_col = Z.of_nat start_line.
Proof.
  intros Hl Hdq Hsq Hsb Hcb.
  unfold _value_block_end. rewrite (drop_S _ _ _ Hl). cbn [value_lines].
  pose proof (scan_text_plain _ scan_init eq_refl Hdq Hsq Hsb Hcb) as Hf.
  unfold finishes in Hf.
  destruct (scan_text scan_init 0 (Py.drop start_col line)) as [st'|]; [|done].
  by rewrite Hf.
Qed.

Lemma _value_block_end_plain_witness :
  _value_block_end doc_multiline 3 3 = 3.
Proof.
  apply (_value_block_end_plain doc_multiline 3 3 (nl "b = 2")); reflexivity.
Defined.

(** ** Finding the separator *)

Lemma find_equals_loop_sound (s : string) :
  ∀ in_dq in_sq prev (i n : nat),
    find_equals_loop in_dq in_sq prev s i = Some n →
    ∃ k, n = (i + k)%nat ∧ String.get k s = Some "="%char.
Proof.
  induction s as [|ch r IH]; intros a b prev i n H; [done|].
  cbn [find_equals_loop] in H.
  assert (∀ a' b' p', find_equals_loop a' b' p' r (S i) = Some n →
            ∃ k, n = (i + k)%nat ∧ String.get k (String ch r) = Some "="%char)
    as Hstep.
  { intros a' b' p' H'. destruct (IH _ _ _ _ _ H') as (k & -> & Hk).
    exists (S k). split; [lia|done]. }
  destruct (Ascii.eqb ch Py.DQ && negb b).
  { destruct (match prev with Some p => Ascii.eqb p Py.BSL | None => false end);
      by eapply Hstep. }
  destruct (Ascii.eqb ch Py.SQ && negb a); [by eapply Hstep|].
  destruct (Ascii.eqb ch "=" && negb a && negb b) eqn:He; [|by eapply Hstep].
  injection H as <-. exists 0%nat. split; [lia|].
  apply andb_true_iff in He as [[He _]%andb_true_iff _].
  apply Ascii.eqb_eq in He as ->. done.
Qed.

Lemma find_equals_loop_none (s : string) :
  ∀ in_dq in_sq prev (i : nat),
    contains_char "=" s = false →
    find_equals_loop in_dq in_sq prev s i = None.
Proof.
  induction s as [|ch r IH]; intros a b prev i H; [done|].
  apply contains_char_cons in H as [Hc Hr].
  cbn [find_equals_loop]. rewrite Hc. cbn [andb].
  destruct (Ascii.eqb ch Py.DQ && negb b).
  { destruct (match prev with Some p => Ascii.eqb p Py.BSL | None => false end);
      by apply IH. }
  destruct (Ascii.eqb ch Py.SQ && negb a); by apply IH.
Qed.

Lemma find_equals_loop_first (pre post : string) :
  ∀ prev (i : nat),
    contains_char Py.DQ pre = false → contains_char Py.SQ pre = false →
    contains_char "=" pre = false →
    find_equals_loop false false prev (pre +:+ String "=" post) i
    = Some (i + String.length pre)%nat.
Proof.
  induction pre as [|ch r IH]; intros prev i Hdq Hsq Heq.
  - simpl. f_equal. lia.
  - apply contains_char_cons in Hdq as [Hdq Hdq'].
    apply contains_char_cons in Hsq as [Hsq Hsq'].
    apply contains_char_cons in Heq as [Heq Heq'].
    rewrite append_cons. cbn [find_equals_loop].
    rewrite Hdq, Hsq, Heq. cbn [andb]. rewrite IH by done.
    f_equal. simpl. lia.
Qed.

(** X15.  The position [_find_equals_outside_quotes] returns holds an
    equals sign; a line without an equals sign has no position; and when
    the text before the first equals sign holds no quote, that first equals
    sign is the position returned. *)
Theorem _find_equals_outside_quotes_spec (line : string) :
  (∀ n, _find_equals_outside_quotes line = Some n →
        String.get n line = Some "="%char)
  ∧ (contains_char "=" line = false → _find_equals_outside_quotes line = None)
  ∧ (∀ pre post,
        line = pre +:+ String "=" post →
        contains_char Py.DQ pre = false → contains_char Py.SQ pre = false →
        contains_char "=" pre = false →
        _find_equals_outside_quotes line = Some (String.length pre)).
Proof.
  unfold _find_equals_outside_quotes. split; [|split].
  - intros n H. by destruct (find_equals_loop_sound _ _ _ _ _ _ H) as (k & -> & Hk).
  - apply find_equals_loop_none.
  - intros pre post -> Hdq Hsq Heq.
    by rewrite find_equals_loop_first.
Qed.

(** ** The set expression *)

Lemma find_outside_quotes_none (target : ascii) (s : string) :
  ∀ in_dq in_sq (i : nat),
    contains_char target s = false →
    find_outside_quotes target in_dq in_sq s i = None.
Proof.
  induction s as [|ch r IH]; intros a b i H; [done|].
  apply contains_char_cons in H as [Hc Hr].
  cbn [find_outside_quotes]. rewrite Hc. cbn [andb].
  destruct (Ascii.eqb ch Py.DQ && negb b); [by apply IH|].
  destruct (Ascii.eqb ch Py.SQ && negb a); by apply IH.
Qed.

Lemma rstrip_idem (s : string) : Py.rstrip (Py.rstrip s) = Py.rstrip s.
Proof.
  induction s as [|c r IH]; [done|].
  cbn [Py.rstrip]. destruct (Py.rstrip r) as [|d r'] eqn:Hr.
  - destruct (Py.isspace c) eqn:Hc; [done|]. simpl. by rewrite Hc.
  - cbn [Py.rstrip]. cbn [Py.rstrip] in IH. by rewrite IH.
Qed.

(** A text that is empty or starts with a character that is not white space
    stays so when its end is stripped, and stripping it again changes
    nothing. *)
Lemma strip_rstrip_headed (t : string) :
  (∀ c r, t = String c r → Py.isspace c = false) →
  Py.strip (Py.rstrip t) = Py.rstrip t.
Proof.
  intros Ht. unfold Py.strip. destruct t as [|c r]; [done|].
  destruct (rstrip_keeps_head c r (Ht c r eq_refl)) as [r' Hr].
  rewrite Hr, lstrip_head by (by eapply Ht). rewrite <- Hr. apply rstrip_idem.
Qed.

Lemma strip_idem (s : string) : Py.strip (Py.strip s) = Py.strip s.
Proof.
  unfold Py.strip at 2 3. apply strip_rstrip_headed.
  intros c r. apply lstrip_nonspace.
Qed.

Lemma take_headed (n : nat) (t : string) :
  (∀ c r, t = String c r → Py.isspace c = false) →
  ∀ c r, Py.take n t = String c r → Py.isspace c = false.
Proof.
  intros Ht c r. destruct n, t as [|d t]; simpl; try done.
  intros [= <- _]. by eapply Ht.
Qed.

Lemma strip_headed (s : string) :
  ∀ c r, Py.strip s = String c r → Py.isspace c = false.
Proof.
  intros c r. unfold Py.strip.
  destruct (Py.lstrip s) as [|d t] eqn:Hl; [done|].
  pose proof (lstrip_nonspace _ _ _ Hl) as Hd.
  destruct (rstrip_keeps_head d t Hd) as [r' ->]. by intros [= <- _].
Qed.

(** X16.  A set expression without an equals sign is rejected.  When the
    expression is accepted, the path and the value are not empty, and the
    path, the value and the comment (if any) carry no white space at
    either end. *)
Theorem split_set_expression_spec (s : string) :
  (contains_char "=" s = false → split_set_expression s = None)
  ∧ (∀ path value_src comment,
        split_set_expression s = Some (path, value_src, comment) →
        path ≠ "" ∧ value_src ≠ ""
        ∧ Py.strip path = path ∧ Py.strip value_src = value_src
        ∧ (∀ c, comment = Some c → Py.strip c = c)).
Proof.
  unfold split_set_expression. split.
  - intros H. by rewrite find_outside_quotes_none.
  - intros path value_src comment.
    destruct (find_outside_quotes "=" false false s 0) as [eq_pos|]; [|done].
    destruct (Py.strip (Py.take eq_pos s)) as [|pc pr] eqn:Hp; [done|].
    destruct (find_outside_quotes "#" false false _ 0) as [hash_pos|].
    + destruct (Py.rstrip (Py.take hash_pos _)) as [|vc vr] eqn:Hv; [done|].
      intros [= <- <- <-]. split; [done|]. split; [done|].
      split; [by rewrite <- Hp, strip_idem|]. split.
      * rewrite <- Hv. apply strip_rstrip_headed, take_headed, strip_headed.
      * intros c [= <-]. apply strip_idem.
    + destruct (Py.strip (Py.drop (S eq_pos) s)) as [|vc vr] eqn:Hv; [done|].
      intros [= <- <- <-]. split; [done|]. split; [done|].
      split; [by rewrite <- Hp, strip_idem|]. split; [|done].
      by rewrite <- Hv, strip_idem.
Qed.

(** ** Runs of the driver *)

Section DriverRuns.

Variable toml_valid : string -> bool.
Variable toml_loads_k : string -> option value.

Lemma run_ops_exit_code (ops : list Op) (lines : list string) (code : Z) :
  run_ops toml_loads_k ops lines = Exit code → code = 2 ∨ code = 3 ∨ code = 4.
Proof.
  revert lines. induction ops as [|op ops IH]; intros lines; [done|].
  simpl. destruct (run_op toml_loads_k op lines) as [l'|c] eqn:Hop.
  - apply IH.
  - intros [= <-]. by eapply run_op_exit_code.
Qed.

(** X17.  A run writes its output exactly when it ends with exit code 0;
    its exit code is 0, 1, 2, 3, 4 or 5; an unreadable or invalid input
    ends it with code 1, and an output that cannot be written with code 5
    after every operation has succeeded. *)
Theorem main_exit_codes (args : Args) (input_file : option string)
    (output_writable : bool) :
  let r := main toml_valid toml_loads_k args input_file output_writable in
  (is_Some (written r) ↔ exit_code r = 0)
  ∧ (0 <= exit_code r <= 5)
  ∧ (input_file = None → r = stop 1)
  ∧ (∀ text, input_file = Some text → toml_valid text = false → r = stop 1)
  ∧ (exit_code r = 5 →
     output_writable = false
     ∧ ∃ text doc, input_file = Some text
                   ∧ run_ops toml_loads_k (requested args) (initial_lines args text)
                     = Continue doc).
Proof.
  intros r.
  assert (input_file = None → r = stop 1) as Hnone by (by intros ->).
  assert (∀ text, input_file = Some text → toml_valid text = false → r = stop 1)
    as Hinvalid.
  { intros text -> Hv. unfold r, main, validate_toml_document. by rewrite Hv. }
  assert (∀ text, input_file = Some text → toml_valid text = true →
            match run_ops toml_loads_k (requested args) (initial_lines args text) with
            | Exit c => r = stop c ∧ 2 <= c <= 4
            | Continue doc =>
                if output_writable
                then r = {| exit_code := 0; written := Some (Py.join0 doc) |}
                else r = stop 5
            end) as Hvalid.
  { intros text -> Hv. unfold r. rewrite main_run_ops by done.
    destruct (run_ops toml_loads_k (requested args) (initial_lines args text))
      as [doc|c] eqn:Hrun; [by destruct output_writable|].
    split; [done|]. pose proof (run_ops_exit_code _ _ _ Hrun). lia. }
  assert ((∃ out, r = {| exit_code := 0; written := Some out |})
          ∨ (∃ c, r = stop c ∧ 1 <= c <= 5)) as Hshape.
  { destruct input_file as [text|]; [|right; exists 1; by rewrite Hnone].
    destruct (toml_valid text) eqn:Hv;
      [|right; exists 1; by rewrite (Hinvalid text)].
    specialize (Hvalid text eq_refl Hv).
    destruct (run_ops toml_loads_k (requested args) (initial_lines args text))
      as [doc|c].
    - destruct output_writable; [left; by eexists|right; exists 5; by split].
    - right. exists c. destruct Hvalid. split; [done|lia]. }
  split; [|split; [|split; [done|split; [done|]]]].
  - destruct Hshape as [[out ->]|(c & -> & Hc)]; simpl.
    + split; [done|by eexists].
    + split; [by intros [? ?]|lia].
  - destruct Hshape as [[out ->]|(c & -> & Hc)]; simpl; lia.
  - intros H5.
    destruct input_file as [text|]; [|rewrite Hnone in H5; done].
    destruct (toml_valid text) eqn:Hv; [|rewrite (Hinvalid text) in H5; done].
    specialize (Hvalid text eq_refl Hv).
    destruct (run_ops toml_loads_k (requested args) (initial_lines args text))
      as [doc|c] eqn:Hrun.
    + destruct output_writable; [rewrite Hvalid in H5; done|].
      split; [done|]. by exists text, doc.
    + destruct Hvalid as [Hr Hc]. rewrite Hr in H5. simpl in H5. lia.
Qed.

Lemma universal_newlines_id (s : string) :
  contains_char Py.CR s = false → universal_newlines s = s.
Proof.
  induction s as [|c r IH]; [done|]. cbn [contains_char universal_newlines].
  destruct (Ascii.eqb c Py.CR) eqn:Hc.
  - discriminate.
  - simpl. intros H. by rewrite IH.
Qed.

Lemma universal_newlines_no_cr (n : nat) :
  ∀ s, (String.length s ≤ n)%nat →
       contains_char Py.CR (universal_newlines s) = false.
Proof.
  induction n as [|n IH]; intros s Hlen.
  { destruct s; [done|simpl in Hlen; lia]. }
  destruct s as [|c r]; [done|]. simpl in Hlen.
  cbn [universal_newlines]. destruct (Ascii.eqb c Py.CR) eqn:Hc.
  - destruct r as [|c2 r2]; [done|]. simpl in Hlen.
    destruct (Ascii.eqb c2 Py.LF); cbn [contains_char];
      (replace (Ascii.eqb Py.LF Py.CR) with false by done);
      apply IH; simpl; lia.
  - cbn [contains_char]. rewrite Hc. apply IH. lia.
Qed.

(** X18.  A run that requests no operation and no top comment writes the
    input as it was read: the content of the input file with every carriage
    return plus line feed, and every other carriage return, turned into a
    line feed.  The written text is the file's content exactly when that
    content holds no carriage return. *)
Theorem main_no_operation (file : string) :
  toml_valid (universal_newlines file) = true →
  main toml_valid toml_loads_k
    {| sets := []; del_keys := []; del_secs := []; top_comment := None |}
    (read_input (Some file)) true
  = {| exit_code := 0; written := Some (universal_newlines file) |}
  ∧ (universal_newlines file = file ↔ contains_char Py.CR file = false).
Proof.
  intros Hv. split.
  - unfold read_input. simpl option_map. rewrite main_run_ops by done. simpl.
    unfold initial_lines. simpl. by rewrite splitlines_keepends.
  - split; [|apply universal_newlines_id].
    intros H. rewrite <- H. by apply (universal_newlines_no_cr (String.length file)).
Qed.

End DriverRuns.

Lemma main_no_operation_witness :
  main (λ _, true) (λ _, None)
    {| sets := []; del_keys := []; del_secs := []; top_comment := None |}
    (read_input (Some ("a = 1" +:+ String Py.CR (Py.char Py.LF)))) true
  = {| exit_code := 0; written := Some ("a = 1" +:+ Py.char Py.LF) |}.
Proof.
  destruct (main_no_operation (λ _, true) (λ _, None)
              ("a = 1" +:+ String Py.CR (Py.char Py.LF))) as [H _].
  - reflexivity.
  - exact H.
Defined.

(** ** Reading a dotted path *)

Lemma all_chars_app (p : ascii → bool) (a b : string) :
  all_chars p (a +:+ b) = all_chars p a && all_chars p b.
Proof.
  induction a as [|c a IH]; [done|].
  rewrite append_cons. simpl. by rewrite IH, andb_assoc.
Qed.

Lemma all_chars_impl (p q : ascii → bool) (s : string) :
  (∀ c, p c = true → q c = true) → all_chars p s = true → all_chars q s = true.
Proof.
  intros Hpq. induction s as [|c r IH]; [done|]. simpl.
  intros [Hc Hr]%andb_true_iff. by rewrite (Hpq c Hc), IH.
Qed.

(** Stripping changes nothing in a text without white space. *)
Lemma strip_no_space (s : string) :
  all_chars (λ c, negb (Py.isspace c)) s = true → Py.strip s = s.
Proof.
  intros H. unfold Py.strip.
  assert (Py.rstrip s = s) as Hr.
  { induction s as [|c r IH]; [done|]. simpl in H.
    apply andb_true_iff in H as [Hc Hr]. apply negb_true_iff in Hc.
    cbn [Py.rstrip]. rewrite IH by done. destruct r; by rewrite ?Hc. }
  destruct s as [|c r]; [done|]. simpl in H.
  apply andb_true_iff in H as [Hc _]. apply negb_true_iff in Hc.
  by rewrite lstrip_head.
Qed.

Lemma bare_name_strip (n : string) : bare_name n = true → Py.strip n = n.
Proof.
  intros H. apply strip_no_space. destruct n; [done|].
  eapply all_chars_impl; [|exact H].
  intros c Hc. by rewrite bare_not_space.
Qed.

Lemma bare_name_unquote (n : string) : bare_name n = true → _unquote_key n = n.
Proof.
  intros H. unfold _unquote_key. rewrite bare_name_strip by done.
  destruct n as [|c r]; [done|]. simpl in H.
  apply andb_true_iff in H as [Hc _].
  destruct (bare_not_quote c Hc) as [Hdq Hsq].
  by rewrite !startswith_other.
Qed.

Lemma all_chars_list (p : ascii → bool) (s : string) :
  all_chars p s = true → Forall (λ c, p c = true) (list_ascii_of_string s).
Proof.
  induction s as [|c r IH]; simpl; [constructor|].
  intros [Hc Hr]%andb_true_iff. constructor; auto.
Qed.

Lemma bare_name_no_index (n : string) :
  bare_name n = true → _INDEX_RE_match n = None.
Proof.
  intros H. unfold _INDEX_RE_match.
  destruct n as [|c0 r0]; [done|].
  pose proof (all_chars_list _ _ H) as Hall.
  apply Forall_reverse in Hall. unfold reverse in Hall.
  rewrite <- rev_alt in Hall.
  destruct (rev (list_ascii_of_string (String c0 r0))) as [|c r] eqn:Hrev.
  - apply (f_equal (@length _)) in Hrev. rewrite length_rev in Hrev. done.
  - apply Forall_cons in Hall as [Hc _].
    assert (Ascii.eqb c Py.LF = false) as ->.
    { destruct (Ascii.eqb_spec c Py.LF) as [->|]; [|done].
      vm_compute in Hc. done. }
    assert (Ascii.eqb c "]" = false) as ->; [|done].
    destruct (Ascii.eqb_spec c "]") as [->|]; [|done].
    vm_compute in Hc. done.
Qed.

(** A run of bare characters is written to the token as it is. *)
Lemma split_path_loop_bare (w : string) :
  ∀ buf rest,
    all_chars is_bare_char w = true →
    split_path_loop false false buf (w +:+ rest)
    = split_path_loop false false (buf +:+ w) rest.
Proof.
  induction w as [|c w IH]; intros buf rest H.
  - by rewrite append_nil_r.
  - simpl in H. apply andb_true_iff in H as [Hc Hw].
    rewrite append_cons. cbn [split_path_loop].
    destruct (bare_not_quote c Hc) as [Hdq Hsq].
    assert (Ascii.eqb c Py.DQ = false) as -> by (by apply Ascii.eqb_neq).
    assert (Ascii.eqb c Py.SQ = false) as -> by (by apply Ascii.eqb_neq).
    assert (Ascii.eqb c "." = false) as ->.
    { destruct (Ascii.eqb_spec c ".") as [->|]; [|done]. vm_compute in Hc. done. }
    rewrite IH by done. by rewrite append_assoc.
Qed.

Lemma split_path_loop_names (n : string) (ns : list string) :
  bare_name n = true → Forall (λ x, bare_name x = true) ns →
  split_path_loop false false "" (Py.join "." (n :: ns)) = n :: ns.
Proof.
  revert n. induction ns as [|n' ns IH]; intros n Hn Hns.
  - unfold Py.join. simpl.
    rewrite <- (append_nil_r n) at 1.
    rewrite split_path_loop_bare by (by destruct n).
    simpl. rewrite bare_name_strip by done. by destruct n.
  - apply Forall_cons in Hns as [Hn' Hns].
    change (Py.join "." (n :: n' :: ns))
      with (n +:+ String "." (Py.join "." (n' :: ns))).
    rewrite split_path_loop_bare by (by destruct n).
    cbn [split_path_loop]. simpl (Ascii.eqb _ _).
    rewrite bare_name_strip by done. by rewrite IH.
Qed.

Lemma join_bare_no_space (n : string) (ns : list string) :
  bare_name n = true → Forall (λ x, bare_name x = true) ns →
  all_chars (λ c, negb (Py.isspace c)) (Py.join "." (n :: ns)) = true.
Proof.
  revert n. induction ns as [|n' ns IH]; intros n Hn Hns.
  - unfold Py.join. simpl. destruct n; [done|].
    eapply all_chars_impl; [|exact Hn]. intros c Hc. by rewrite bare_not_space.
  - apply Forall_cons in Hns as [Hn' Hns].
    change (Py.join "." (n :: n' :: ns))
      with (n +:+ String "." (Py.join "." (n' :: ns))).
    rewrite all_chars_app. cbn [all_chars]. rewrite IH by done.
    rewrite andb_true_r. destruct n; [done|].
    eapply all_chars_impl; [|exact Hn]. intros c Hc. by rewrite bare_not_space.
Qed.

(** X19.  A path written as bare names joined by dots is read as those
    names, in order, none with an index. *)
Theorem parse_path_with_indices_bare (n : string) (ns : list string) :
  bare_name n = true → Forall (λ x, bare_name x = true) ns →
  parse_path_with_indices (Py.join "." (n :: ns)) = map seg (n :: ns).
Proof.
  intros Hn Hns. unfold parse_path_with_indices, _split_path_tokens.
  rewrite strip_no_space by (by apply join_bare_no_space).
  rewrite split_path_loop_names by done.
  apply map_ext_Forall. apply Forall_cons. split; [|eapply Forall_impl; [done|]].
  - rewrite bare_name_strip, bare_name_no_index, bare_name_unquote by done. done.
  - intros x Hx. simpl.
    rewrite bare_name_strip, bare_name_no_index, bare_name_unquote by done. done.
Qed.

Lemma parse_path_with_indices_bare_witness :
  parse_path_with_indices "logger.stdout_level"
  = [seg "logger"; seg "stdout_level"].
Proof.
  apply (parse_path_with_indices_bare "logger" ["stdout_level"]);
    [reflexivity|by repeat constructor].
Defined.

(** X20.  A single-quoted key is taken as it is written between the quotes,
    backslashes included. *)
Theorem _unquote_key_literal (s : string) :
  _unquote_key (String Py.SQ (s +:+ Py.char Py.SQ)) = s.
Proof.
  unfold _unquote_key. rewrite strip_quoted by reflexivity.
  rewrite (startswith_other Py.SQ Py.DQ) by done. cbn [andb].
  rewrite startswith_head, endswith_quoted. cbn [andb Py.slice_1_m1].
  apply removelast_app_char.
Qed.

(** ** Replacing the top comment twice *)

Lemma splitlines_from_tail (s : string) :
  ∀ cur l ls, Py.splitlines_from true cur s = l :: ls →
              ∃ r, ls = Py.splitlines true r.
Proof.
  induction s as [|c r IH]; intros cur l ls H.
  - simpl in H. exists "". destruct cur; by simplify_eq.
  - cbn [Py.splitlines_from] in H.
    destruct (Ascii.eqb c Py.CR).
    + destruct r as [|d r'].
      * injection H as _ <-. by exists "".
      * destruct (Ascii.eqb d Py.LF); injection H as _ <-;
          [by exists r'|by exists (String d r')].
    + destruct (Py.islinebreak c); [injection H as _ <-; by exists r|].
      by eapply IH.
Qed.

Lemma drop_splitlines (i : nat) :
  ∀ t, ∃ r, drop i (Py.splitlines true t) = Py.splitlines true r.
Proof.
  induction i as [|i IH]; intros t; [by exists t|].
  destruct (Py.splitlines true t) as [|l ls] eqn:Hs; [by exists ""|].
  destruct (splitlines_from_tail _ _ _ _ Hs) as [r ->]. simpl. apply IH.
Qed.

(** A text without line boundary, closed by a newline, is one line. *)
Lemma splitlines_from_line (x : string) :
  ∀ cur t, no_linebreak x = true →
           Py.splitlines_from true cur (x +:+ String Py.LF t)
           = (cur +:+ x +:+ Py.char Py.LF) :: Py.splitlines true t.
Proof.
  induction x as [|c x IH]; intros cur t Hx.
  - reflexivity.
  - unfold no_linebreak in Hx. simpl in Hx.
    apply andb_true_iff in Hx as [Hc Hx]. apply negb_true_iff in Hc.
    rewrite append_cons. cbn [Py.splitlines_from].
    assert (Ascii.eqb c Py.CR = false) as ->.
    { destruct (Ascii.eqb_spec c Py.CR) as [->|]; [|done]. vm_compute in Hc. done. }
    rewrite Hc, IH by done. by rewrite append_assoc.
Qed.

Lemma splitlines_closed_lines (ls : list string) (t : string) :
  Forall closed_line ls →
  Py.splitlines true (Py.join0 ls +:+ t) = ls ++ Py.splitlines true t.
Proof.
  induction 1 as [|l ls (x & Hx & ->) _ IH]; [done|].
  rewrite join0_cons, !append_assoc.
  unfold Py.splitlines at 1. change (Py.char Py.LF +:+ ?u) with (String Py.LF u).
  rewrite splitlines_from_line by done. simpl. by rewrite IH.
Qed.

Lemma all_chars_rstrip (p : ascii → bool) (s : string) :
  all_chars p s = true → all_chars p (Py.rstrip s) = true.
Proof.
  induction s as [|c r IH]; [done|]. simpl.
  intros [Hc Hr]%andb_true_iff. specialize (IH Hr).
  destruct (Py.rstrip r); [destruct (Py.isspace c); simpl; by rewrite ?Hc|].
  simpl in *. by rewrite Hc.
Qed.

Lemma top_test (line : string) :
  (match Py.strip line with "" => true | _ => false end
   || Py.startswith (Py.strip line) "#")
  = _is_comment_or_blank line.
Proof. unfold _is_comment_or_blank. by destruct (Py.strip line). Qed.

Lemma comment_line_closed (raw : string) :
  no_linebreak raw = true →
  closed_line (comment_line raw) ∧ _is_comment_or_blank (comment_line raw) = true.
Proof.
  intros Hraw. unfold comment_line.
  destruct (Py.strip raw) as [|c r] eqn:Hs.
  - split; [by exists "#"|reflexivity].
  - split.
    + exists ("# " +:+ Py.rstrip raw). split; [|by rewrite !append_assoc].
      unfold no_linebreak. rewrite all_chars_app.
      by rewrite (all_chars_rstrip _ raw Hraw).
    + unfold _is_comment_or_blank, Py.strip.
      change ("# " +:+ ?u) with (String "#" (" " +:+ u)).
      rewrite lstrip_head by reflexivity.
      destruct (rstrip_keeps_head "#" (" " +:+ Py.rstrip raw +:+ Py.char Py.LF)
                  eq_refl) as [r' ->].
      apply (startswith_head "#").
Qed.

Lemma splitlines_from_no_linebreak (n : nat) :
  ∀ s cur, (String.length s <= n)%nat → no_linebreak cur = true →
           Forall (λ l, no_linebreak l = true) (Py.splitlines_from false cur s).
Proof.
  induction n as [|n IH]; intros s cur Hn Hcur.
  - destruct s; [|simpl in Hn; lia]. simpl. destruct cur; by repeat constructor.
  - destruct s as [|c r]; [simpl; destruct cur; by repeat constructor|].
    simpl in Hn. cbn [Py.splitlines_from].
    destruct (Ascii.eqb c Py.CR).
    + destruct r as [|d r'].
      * constructor; [done|]. by apply IH; [simpl; lia|].
      * simpl in Hn. destruct (Ascii.eqb d Py.LF);
          (constructor; [done|]); by apply IH; [simpl; lia|].
    + destruct (Py.islinebreak c) eqn:Hc.
      * constructor; [done|]. by apply IH; [lia|].
      * apply IH; [lia|]. unfold no_linebreak. rewrite all_chars_app.
        unfold no_linebreak in Hcur. rewrite Hcur. simpl. by rewrite Hc.
Qed.

Lemma top_comment_end_app (run rest : list string) :
  Forall (λ l, _is_comment_or_blank l = true) run →
  (∀ l, head rest = Some l → _is_comment_or_blank l = false) →
  top_comment_end (run ++ rest) = length run.
Proof.
  intros Hrun Hrest. induction Hrun as [|l run Hl _ IH]; simpl.
  - destruct rest as [|l rest]; [done|]. simpl.
    by rewrite top_test, (Hrest l eq_refl).
  - by rewrite top_test, Hl, IH.
Qed.

(** X21.  Replacing the top comment a second time leaves only the second
    comment: the block the first replacement wrote is the whole leading
    run of the new document, so the result is the same as replacing once
    with the second text; in particular, replacing twice with the same
    text changes nothing more. *)
Theorem replace_top_comment_block_twice (text a b : string) :
  replace_top_comment_block (replace_top_comment_block text (Some a)) (Some b)
  = replace_top_comment_block text (Some b).
Proof.
  unfold replace_top_comment_block at 2.
  set (lines := Py.splitlines true text).
  destruct (top_comment_end_spec lines) as [_ Hrest].
  destruct (drop_splitlines (top_comment_end lines) text) as [r Hr].
  fold lines in Hr.
  set (block := map comment_line (Py.splitlines false a) ++ [Py.char Py.LF]).
  assert (Forall (λ l, closed_line l ∧ _is_comment_or_blank l = true) block)
    as Hblock.
  { apply Forall_app. split.
    - apply Forall_fmap. eapply Forall_impl.
      + apply (splitlines_from_no_linebreak (String.length a) a ""); [lia|done].
      + intros raw Hraw. by apply comment_line_closed.
    - repeat constructor. by exists "". }
  assert (Py.splitlines true (Py.join0 (block ++ drop (top_comment_end lines) lines))
          = block ++ drop (top_comment_end lines) lines) as Hsplit.
  { rewrite join0_app, Hr, splitlines_keepends.
    apply splitlines_closed_lines. eapply Forall_impl; [exact Hblock|].
    by intros l [? _]. }
  unfold replace_top_comment_block. rewrite Hsplit.
  rewrite top_comment_end_app; [|by eapply Forall_impl; [exact Hblock|intros l [_ ?]]|done].
  by rewrite drop_app_length.
Qed.

(** ** Counting headers, moving a value *)

Lemma scan_headers_length (lines : list string) :
  ∀ i m, length (scan_headers lines i m) = length (header_lines lines).
Proof.
  unfold header_lines.
  induction lines as [|line rest IH]; intros i m; [done|].
  simpl. rewrite filter_cons.
  destruct (_parse_header_line line) as [[[] p]|] eqn:Hp; simpl.
  - destruct (decide (is_Some (Some (root, p)))) as [|[]]; [|by eexists].
    simpl. by rewrite IH.
  - destruct (decide (is_Some (Some (table, p)))) as [|[]]; [|by eexists].
    simpl. by rewrite IH.
  - destruct (decide (is_Some (Some (aot, p)))) as [|[]]; [|by eexists].
    simpl. by rewrite IH.
  - destruct (decide (is_Some (@None (Kind * list string)))) as [[? ?]|]; [done|].
    apply IH.
Qed.

(** X22.  The header list has one entry for the root and one for each line
    of the document that parses as a header, so a document without header
    lines has the root alone, which then spans the whole document. *)
Theorem index_headers_length (lines : list string) :
  length (index_headers lines) = S (length (header_lines lines))
  ∧ (header_lines lines = [] →
     index_headers lines
     = [set_end_line root_header (Z.of_nat (length lines) - 1)]).
Proof.
  split.
  - unfold index_headers. rewrite compute_end_lines_length. simpl.
    by rewrite scan_headers_length.
  - intros Hnone. unfold index_headers.
    pose proof (scan_headers_length lines 0 ∅) as Hlen. rewrite Hnone in Hlen.
    destruct (scan_headers lines 0 ∅); [done|]. simpl in Hlen. lia.
Qed.

Lemma value_lines_shift (texts : list string) :
  ∀ st i last d,
    value_lines st (i + d) texts (last + d) = value_lines st i texts last + d.
Proof.
  induction texts as [|t rest IH]; intros st i last d; [done|].
  cbn [value_lines]. destruct (scan_text st 0 t) as [st'|]; [|done].
  destruct (value_ends st'); [done|].
  replace (i + d + 1) with (i + 1 + d) by lia. apply IH.
Qed.

(** X23.  Where a value ends depends only on the lines from its start line
    on: with lines put before the document, the scanner returns the same
    line, moved by the number of lines put before. *)
Theorem _value_block_end_shift (pre lines : list string)
    (start_line start_col : nat) :
  _value_block_end (pre ++ lines) (length pre + start_line) start_col
  = Z.of_nat (length pre) + _value_block_end lines start_line start_col.
Proof.
  unfold _value_block_end. rewrite drop_app_add', length_app by done.
  destruct (drop start_line lines) as [|line rest]; [lia|].
  replace (Z.of_nat (length pre + start_line))
    with (Z.of_nat start_line + Z.of_nat (length pre)) by lia.
  replace (Z.of_nat (length pre + length lines) - 1)
    with (Z.of_nat (length lines) - 1 + Z.of_nat (length pre)) by lia.
  rewrite value_lines_shift. lia.
Qed.
